(** * MeaningMaker: fetch policy gate, page metadata cache and enrichment

    A shallow embedding of [src/perception-toolkit/meaning-maker.ts].

    The class keeps three pieces of mutable state (the artifact store, the
    artifact dealer and [pageMetadataCache]) and talks to collaborators
    that live in other files of the toolkit: [fetchAsDocument],
    [extractPageMetadata], [ArtifactLoader], [LocalArtifactStore],
    [ArtifactDealer] and the platform's [URL] constructor.  The
    collaborators are an interface here ([Collaborators]); the methods of
    the class are state-passing functions over [State].

    Objects that the code compares or mutates by reference keep their
    identity: a [URL] carries the identity of the instance ([url_id]); a
    Thing is a location of the object heap, so that [Map<URL, Thing>] is a
    map from instance identities to locations and [Object.assign] is an
    update of the heap cell of its target; a [NearbyResult] is a location
    too, so that the assignment [result.content = ...] is seen wherever the
    same result is reached again.

    The methods that can end in a [TypeError] (the enrichment and the
    events that run it) give an [Outcome]: a value returned or an error
    thrown, with the state as it is at that moment.

    Every [async] method is run to completion: an [await] is sequencing.
    Interleavings of two calls in flight at the same time are not part of
    this development. *)

From Stdlib Require Import Strings.Ascii.
From stdpp Require Import gmap strings list.

(** ** JavaScript values held by the fields of a Thing *)

(** The primitive values other than numbers.  Numbers, arrays and nested
    objects are not represented: a Thing that holds one is outside this
    development. *)
Inductive JsVal :=
  | VUndef
  | VNull
  | VBool (b : bool)
  | VStr (s : string).

#[global] Instance JsVal_eq_dec : EqDecision JsVal.
Proof. solve_decision. Defined.

(** [!!v] *)
Definition truthy (v : JsVal) : bool :=
  match v with
  | VUndef | VNull => false
  | VBool b => b
  | VStr s => negb (String.eqb s "")
  end.

(** [a === b] on the values above. *)
Definition strict_eq (a b : JsVal) : bool := bool_decide (a = b).

(** The string a value is turned into where a string is expected
    ([new URL(v)]). *)
Definition js_to_string (v : JsVal) : string :=
  match v with
  | VUndef => "undefined"
  | VNull => "null"
  | VBool true => "true"
  | VBool false => "false"
  | VStr s => s
  end.

(** The own properties of a plain object. *)
Abbreviation Fields := (gmap string JsVal).

(** [o[k]] for a key that [Object.prototype] does not define (the class
    reads [url] and [@type]): the own property, and [undefined] when there
    is none, whatever the prototype of the object. *)
Definition get_prop (o : Fields) (k : string) : JsVal := default VUndef (o !! k).

(** [Object.prototype.hasOwnProperty], the function itself. *)
Definition hasOwnProperty (o : Fields) (k : string) : bool :=
  bool_decide (is_Some (o !! k)).

(** ** Errors *)

Inductive Error := TypeError.

Inductive Outcome (A : Type) :=
  | Returned (a : A)
  | Threw (e : Error).
Arguments Returned {A} _.
Arguments Threw {A} _.

(** The call [o.hasOwnProperty(k)].  The method is looked up on the object:
    an own property of that name comes first, and none of the values above
    is a function; an object whose prototype is [null] ([bare]) has no such
    method.  In both cases the call is a [TypeError]. *)
Definition call_hasOwnProperty (bare : bool) (o : Fields) (k : string) : Outcome bool :=
  match o !! "hasOwnProperty" with
  | Some _ => Threw TypeError
  | None => if bare then Threw TypeError else Returned (hasOwnProperty o k)
  end.

(** ** [Object.assign]

    [Object.assign(target, source)] writes every own property of [source]
    with an ordinary assignment [target[k] = v].  For every key but one
    this makes or overwrites an own property of [target].  The key
    [__proto__] is the exception: when [target] has an own property of that
    name it is overwritten, and when [target] has no prototype an own
    property is made, as for any key; otherwise the assignment runs the
    setter of [Object.prototype], which makes no own property and sets the
    prototype of [target] when the value is [null] (the values above hold
    no object). *)

(** The own properties of [target] after the call; [bare] says that
    [target] has no prototype. *)
Definition assign_fields (bare : bool) (target source : Fields) : Fields :=
  if bare || bool_decide (is_Some (target !! "__proto__"))
  then source ∪ target
  else delete "__proto__" source ∪ target.

(** Whether [target] has no prototype after the call. *)
Definition assign_bare (bare : bool) (target source : Fields) : bool :=
  bare
  || (bool_decide (target !! "__proto__" = None)
      && bool_decide (source !! "__proto__" = Some VNull)).

(** ** References *)

(** Locations of objects: of Things in the object heap, of results among
    the results of the dealer. *)
Abbreviation loc := positive.

(** A [URL] instance: its identity and the two components the class reads. *)
Record URL := mkURL {
  url_id : nat;
  href : string;
  origin : string
}.

(** Modelled from the spec: the content types and [typeIsThing] of
    core-schema-org are not in the sources at hand; a content is either a
    string or a structured Thing, and [typeIsThing] tells the two apart,
    which is the match on the constructor here. *)
Inductive Content :=
  | CStr (s : string)
  | CThing (l : loc).

(** [!c] for a content that is there: only the empty string is falsy. *)
Definition content_truthy (c : Content) : bool :=
  match c with
  | CStr s => negb (String.eqb s "")
  | CThing _ => true
  end.

(** The fields of a [NearbyResult] object, over the type of artifacts; a
    [content] that is not there is [None]. *)
Record NearbyResultOf (A : Type) := mkNearbyResult {
  artifact : A;
  content : option Content
}.
Arguments mkNearbyResult {A} _ _.
Arguments artifact {A} _.
Arguments content {A} _.

(** [NearbyResultDelta]: two arrays of results. *)
Record NearbyResultDelta := mkDelta {
  found : list loc;
  lost : list loc
}.

(** ** Collaborators *)

Class Collaborators := {
  Document : Type;
  ARArtifact : Type;
  Marker : Type;
  DetectedImage : Type;
  GeoCoordinates : Type;
  (** the private state of the artifact dealer *)
  Dealer : Type;
  (** whatever decides the outcome of a fetch *)
  Net : Type;
  (** [marker.value] *)
  marker_value : Marker → string;
  (** [window.location.origin] *)
  window_location_origin : string;
  (** [new URL(s)] with no base: [href] and [origin] of the parsed URL, or
      [None] where the constructor throws. *)
  parseURL : string → option (string * string);
  (** [fetchAsDocument(url)]: [None] is the [null] of a failed fetch. *)
  fetchAsDocument : URL → Net → option Document * Net;
  (** the properties of the Thing [extractPageMetadata(doc, url)] returns;
      the Thing itself is an object made by that call *)
  extractPageMetadata : Document → URL → Fields;
  (** [artloader.fromElement(doc, url)] *)
  fromElement : Document → URL → list ARArtifact;
  (** [artloader.fromJsonUrl(url)] *)
  fromJsonUrl : URL → Net → list ARArtifact * Net;
  (** the five calls of [ArtifactDealer]; the dealer reads the store it was
      given in the constructor, here the second argument; the result
      objects are the dealer's, which makes them and may change them at a
      call *)
  dealer_markerFound :
    Marker → list ARArtifact → Dealer → gmap loc (NearbyResultOf ARArtifact) →
    NearbyResultDelta * Dealer * gmap loc (NearbyResultOf ARArtifact);
  dealer_markerLost :
    Marker → list ARArtifact → Dealer → gmap loc (NearbyResultOf ARArtifact) →
    NearbyResultDelta * Dealer * gmap loc (NearbyResultOf ARArtifact);
  dealer_updateGeolocation :
    GeoCoordinates → list ARArtifact → Dealer → gmap loc (NearbyResultOf ARArtifact) →
    NearbyResultDelta * Dealer * gmap loc (NearbyResultOf ARArtifact);
  dealer_imageFound :
    DetectedImage → list ARArtifact → Dealer → gmap loc (NearbyResultOf ARArtifact) →
    NearbyResultDelta * Dealer * gmap loc (NearbyResultOf ARArtifact);
  dealer_imageLost :
    DetectedImage → list ARArtifact → Dealer → gmap loc (NearbyResultOf ARArtifact) →
    NearbyResultDelta * Dealer * gmap loc (NearbyResultOf ARArtifact)
}.

(** [ShouldFetchArtifactsFromCallback]: [None] is a callback that throws. *)
Abbreviation ShouldFetchArtifactsFromCallback := (URL → option bool).

Abbreviation NearbyResult := (NearbyResultOf ARArtifact).

Section MeaningMaker.
Context `{C : Collaborators}.

(** The calls the coordinator forwards to the artifact dealer. *)
Inductive DealerQuery :=
  | QMarkerFound (m : Marker)
  | QMarkerLost (m : Marker)
  | QUpdateGeolocation (c : GeoCoordinates)
  | QImageFound (i : DetectedImage)
  | QImageLost (i : DetectedImage).

(** What the class does to the outside, in the order it does it.  The
    dealer holds the store it was given in the constructor, so a query is
    answered from the store as it is at that moment; the event records it. *)
Inductive Event :=
  | EvFetch (u : URL)
  | EvAddArtifact (a : ARArtifact)
  | EvDealer (q : DealerQuery) (store : list ARArtifact).

Record State := mkState {
  (** [LocalArtifactStore]: the artifacts added so far *)
  artstore : list ARArtifact;
  artdealer : Dealer;
  (** [Map<URL, Thing>]: from the identity of a URL instance to a Thing *)
  pageMetadataCache : gmap nat loc;
  (** the Thing objects: their own properties *)
  heap : gmap loc Fields;
  net : Net;
  (** the identity the next [new URL] gets *)
  next_url : nat;
  trace : list Event;
  (** the [NearbyResult] objects *)
  nearby : gmap loc NearbyResult;
  (** the Thing objects whose prototype is [null]; the prototype of every
      other Thing is [Object.prototype] *)
  bare : gset loc
}.

Definition set_artstore (s : list ARArtifact) (σ : State) : State :=
  mkState s (artdealer σ) (pageMetadataCache σ) (heap σ) (net σ) (next_url σ) (trace σ)
          (nearby σ) (bare σ).
Definition set_artdealer (d : Dealer) (σ : State) : State :=
  mkState (artstore σ) d (pageMetadataCache σ) (heap σ) (net σ) (next_url σ) (trace σ)
          (nearby σ) (bare σ).
Definition set_pageMetadataCache (c : gmap nat loc) (σ : State) : State :=
  mkState (artstore σ) (artdealer σ) c (heap σ) (net σ) (next_url σ) (trace σ)
          (nearby σ) (bare σ).
Definition set_heap (h : gmap loc Fields) (σ : State) : State :=
  mkState (artstore σ) (artdealer σ) (pageMetadataCache σ) h (net σ) (next_url σ) (trace σ)
          (nearby σ) (bare σ).
Definition set_net (n : Net) (σ : State) : State :=
  mkState (artstore σ) (artdealer σ) (pageMetadataCache σ) (heap σ) n (next_url σ) (trace σ)
          (nearby σ) (bare σ).
Definition set_next_url (k : nat) (σ : State) : State :=
  mkState (artstore σ) (artdealer σ) (pageMetadataCache σ) (heap σ) (net σ) k (trace σ)
          (nearby σ) (bare σ).
Definition log (e : Event) (σ : State) : State :=
  mkState (artstore σ) (artdealer σ) (pageMetadataCache σ) (heap σ) (net σ) (next_url σ)
          (trace σ ++ [e]) (nearby σ) (bare σ).
Definition set_nearby (n : gmap loc NearbyResult) (σ : State) : State :=
  mkState (artstore σ) (artdealer σ) (pageMetadataCache σ) (heap σ) (net σ) (next_url σ)
          (trace σ) n (bare σ).
Definition set_bare (b : gset loc) (σ : State) : State :=
  mkState (artstore σ) (artdealer σ) (pageMetadataCache σ) (heap σ) (net σ) (next_url σ)
          (trace σ) (nearby σ) b.

(** ** The state monad of the methods *)

Definition M (A : Type) : Type := State → A * State.

Definition ret {A} (a : A) : M A := fun σ => (a, σ).

Definition bind {A B} (m : M A) (k : A → M B) : M B :=
  fun σ => let '(a, σ') := m σ in k a σ'.

Notation "'let*' x ':=' m 'in' k" := (bind m (fun x => k))
  (at level 10, x name, m at level 100, k at level 200).

Notation "m ';;' k" := (bind m (fun _ => k))
  (at level 100, k at level 200, right associativity).

Definition modify (f : State → State) : M unit := fun σ => (tt, f σ).

Definition gets {A} (f : State → A) : M A := fun σ => (f σ, σ).

(** ** The methods that can throw *)

Definition E (A : Type) : Type := State → Outcome A * State.

Definition retE {A} (a : A) : E A := fun σ => (Returned a, σ).

(** An error ends the method: what follows does not run, and the state is
    the state at the throw. *)
Definition bindE {A B} (m : E A) (k : A → E B) : E B :=
  fun σ =>
    match m σ with
    | (Returned a, σ') => k a σ'
    | (Threw e, σ') => (Threw e, σ')
    end.

(** A method that does not throw. *)
Definition lift {A} (m : M A) : E A :=
  fun σ => let '(a, σ') := m σ in (Returned a, σ').

Notation "'let!' x ':=' m 'in' k" := (bindE m (fun x => k))
  (at level 10, x name, m at level 100, k at level 200).

(** ** Primitive effects *)

(** [new URL(s)]: a new instance each time, or [None] when it throws. *)
Definition new_URL (s : string) : M (option URL) := fun σ =>
  match parseURL s with
  | Some (h, o) => (Some (mkURL (next_url σ) h o), set_next_url (S (next_url σ)) σ)
  | None => (None, σ)
  end.

(** [await fetchAsDocument(url)] *)
Definition fetch (url : URL) : M (option Document) := fun σ =>
  let '(d, n) := fetchAsDocument url (net σ) in
  (d, log (EvFetch url) (set_net n σ)).

(** A new plain object with the given properties. *)
Definition alloc (o : Fields) : M loc := fun σ =>
  let l := fresh (dom (heap σ)) in
  (l, set_bare (bare σ ∖ {[l]}) (set_heap (<[l := o]> (heap σ)) σ)).

(** The properties of the object at [l]. *)
Definition deref (l : loc) : M Fields := gets (fun σ => default ∅ (heap σ !! l)).

(** [Object.assign(target, source)]: writes into [target], returns it. *)
Definition Object_assign (target source : loc) : M loc := fun σ =>
  let t := default ∅ (heap σ !! target) in
  let s := default ∅ (heap σ !! source) in
  let b := bool_decide (target ∈ bare σ) in
  (target,
   set_bare (if assign_bare b t s then {[target]} ∪ bare σ else bare σ)
     (set_heap (<[target := assign_fields b t s]> (heap σ)) σ)).

(** [thing.hasOwnProperty(k)] for the Thing at [l]. *)
Definition call_method_hasOwnProperty (l : loc) (k : string) : E bool := fun σ =>
  (call_hasOwnProperty (bool_decide (l ∈ bare σ)) (default ∅ (heap σ !! l)) k, σ).

(** [result.content = c] for the result at [r]. *)
Definition set_result_content (r : loc) (c : Content) : M unit :=
  modify (fun σ =>
    set_nearby
      (alter (fun result => mkNearbyResult (artifact result) (Some c)) r (nearby σ)) σ).

(** ** Fetch policy *)

(** [normalizeShouldFetchFn]: the argument is absent, a callback or an array
    of origins.  [origins.find(...)] gives the origin found, and [!!] of it is
    false for the empty string. *)
Definition normalizeShouldFetchFn
    (shouldFetchArtifactsFrom : option (ShouldFetchArtifactsFromCallback + list string))
    : ShouldFetchArtifactsFromCallback :=
  match shouldFetchArtifactsFrom with
  | None => fun url => Some (String.eqb (origin url) window_location_origin)
  | Some (inr origins) => fun url =>
      Some (match List.find (fun o => String.eqb o (origin url)) origins with
            | Some o => truthy (VStr o)
            | None => false
            end)
  | Some (inl f) => f
  end.

(** [checkIsFetchableURL]: the [try] covers the constructor and the
    callback, so a throw of either ends in [return null]. *)
Definition checkIsFetchableURL (potentialUrl : string)
    (shouldFetchArtifactsFrom : ShouldFetchArtifactsFromCallback) : M (option URL) :=
  let* r := new_URL potentialUrl in
  match r with
  | Some url =>
      match shouldFetchArtifactsFrom url with
      | Some true => ret (Some url)
      | Some false => ret None
      | None => ret None
      end
  | None => ret None
  end.

(** ** Page metadata *)

(** [savePageMetadata]: the extracted Thing is an object of its own; the
    cache entry of this URL instance is set to it, whatever it held. *)
Definition savePageMetadata (doc : Document) (url : URL) : M loc :=
  let* pageMetadata := alloc (extractPageMetadata doc url) in
  modify (fun σ =>
    set_pageMetadataCache (<[url_id url := pageMetadata]> (pageMetadataCache σ)) σ) ;;
  ret pageMetadata.

(** [tryExtractPageMetadata] from its second statement on (the cache test,
    the fetch and the saving), for the URL instance the gate returned. *)
Definition extractForURL (url : URL) : M (option loc) :=
  let* hit := gets (fun σ => pageMetadataCache σ !! url_id url) in
  match hit with
  | Some thing => ret (Some thing)
  | None =>
      let* doc := fetch url in
      match doc with
      | None => ret None
      | Some doc =>
          let* thing := savePageMetadata doc url in
          ret (Some thing)
      end
  end.

Definition tryExtractPageMetadata (potentialUrl : string)
    (shouldFetchArtifactsFrom : ShouldFetchArtifactsFromCallback) : M (option loc) :=
  let* url := checkIsFetchableURL potentialUrl shouldFetchArtifactsFrom in
  match url with
  | None => ret None
  | Some url => extractForURL url
  end.

(** ** Enrichment *)

(** The body of the loop of [attemptEnrichContentWithPageMetadata], for the
    result object at [r].  A location that holds no result does not arise
    in the source; the body does nothing there.  The content that the
    statements after the [await] read again is the content read before it:
    the calls in between do not touch the results. *)
Definition enrichResult (shouldFetchArtifactsFrom : ShouldFetchArtifactsFromCallback)
    (r : loc) : E unit :=
  let! found := lift (gets (fun σ => nearby σ !! r)) in
  match found with
  | None => retE tt
  | Some result =>
      match content result with
      | None => retE tt
      | Some c =>
          if negb (content_truthy c) then retE tt
          else
            match c with
            | CStr s =>
                let! pageMetadata :=
                  lift (tryExtractPageMetadata s shouldFetchArtifactsFrom) in
                match pageMetadata with
                | Some thing => lift (set_result_content r (CThing thing))
                | None => retE tt
                end
            | CThing l =>
                let! o := lift (deref l) in
                if truthy (get_prop o "url") then
                  let! named := call_method_hasOwnProperty l "name" in
                  if named then retE tt
                  else
                    let! pageMetadata :=
                      lift (tryExtractPageMetadata (js_to_string (get_prop o "url"))
                                                   shouldFetchArtifactsFrom) in
                    match pageMetadata with
                    | Some thing =>
                        let! p := lift (deref thing) in
                        let! o' := lift (deref l) in
                        if strict_eq (get_prop p "@type") (get_prop o' "@type") then
                          let! merged := lift (Object_assign thing l) in
                          lift (set_result_content r (CThing merged))
                        else retE tt
                    | None => retE tt
                    end
                else retE tt
            end
      end
  end.

(** [attemptEnrichContentWithPageMetadata]: the results in order, each one
    awaited before the next; an error ends the loop.  The array that comes
    back is the array that went in; what has changed are the result
    objects. *)
Fixpoint attemptEnrichContentWithPageMetadata (results : list loc)
    (shouldFetchArtifactsFrom : ShouldFetchArtifactsFromCallback)
    : E (list loc) :=
  match results with
  | [] => retE []
  | result :: rest =>
      let! done := enrichResult shouldFetchArtifactsFrom result in
      let! rest' := attemptEnrichContentWithPageMetadata rest shouldFetchArtifactsFrom in
      retE (result :: rest')
  end.

(** ** Coordinator *)

(** Modelled from the spec: [LocalArtifactStore] is not in the sources at
    hand; the store holds the artifact definitions added to it. *)
Definition addArtifact (a : ARArtifact) : M unit :=
  modify (fun σ => log (EvAddArtifact a) (set_artstore (artstore σ ++ [a]) σ)).

Fixpoint saveArtifacts (artifacts : list ARArtifact) : M unit :=
  match artifacts with
  | [] => ret tt
  | a :: rest => addArtifact a ;; saveArtifacts rest
  end.

Definition loadArtifactsFromJsonldUrl (url : URL) : M (list ARArtifact) :=
  let* artifacts := (fun σ =>
    let '(l, n) := fromJsonUrl url (net σ) in (l, set_net n σ)) in
  saveArtifacts artifacts ;;
  ret artifacts.

Definition loadArtifactsFromHtmlUrl (url : URL) : M (list ARArtifact) :=
  let* doc := fetch url in
  match doc with
  | None => ret []
  | Some doc =>
      savePageMetadata doc url ;;
      let artifacts := fromElement doc url in
      saveArtifacts artifacts ;;
      ret artifacts
  end.

(** The answer of the dealer to a query, from a store, the state of the
    dealer and the result objects. *)
Definition dealer_answer (q : DealerQuery) (store : list ARArtifact) (d : Dealer)
    (n : gmap loc NearbyResult) : NearbyResultDelta * Dealer * gmap loc NearbyResult :=
  match q with
  | QMarkerFound m => dealer_markerFound m store d n
  | QMarkerLost m => dealer_markerLost m store d n
  | QUpdateGeolocation c => dealer_updateGeolocation c store d n
  | QImageFound i => dealer_imageFound i store d n
  | QImageLost i => dealer_imageLost i store d n
  end.

(** A call of the dealer: answered from the store as it is now. *)
Definition ask_dealer (q : DealerQuery) : M NearbyResultDelta := fun σ =>
  let '(delta, d, n) := dealer_answer q (artstore σ) (artdealer σ) (nearby σ) in
  (delta, log (EvDealer q (artstore σ)) (set_nearby n (set_artdealer d σ))).

Definition markerFound (marker : Marker)
    (shouldFetchArtifactsFrom : option (ShouldFetchArtifactsFromCallback + list string))
    : E NearbyResultDelta :=
  let shouldFetchArtifactsFrom := normalizeShouldFetchFn shouldFetchArtifactsFrom in
  let! url := lift (checkIsFetchableURL (marker_value marker) shouldFetchArtifactsFrom) in
  let! loaded :=
    lift (match url with
          | Some url => loadArtifactsFromHtmlUrl url ;; ret tt
          | None => ret tt
          end) in
  let! results := lift (ask_dealer (QMarkerFound marker)) in
  let! found' := attemptEnrichContentWithPageMetadata (found results) shouldFetchArtifactsFrom in
  retE (mkDelta found' (lost results)).

Definition markerLost (marker : Marker) : M NearbyResultDelta :=
  ask_dealer (QMarkerLost marker).

Definition updateGeolocation (coords : GeoCoordinates)
    (shouldFetchArtifactsFrom : option (ShouldFetchArtifactsFromCallback + list string))
    : E NearbyResultDelta :=
  let shouldFetchArtifactsFrom := normalizeShouldFetchFn shouldFetchArtifactsFrom in
  let! results := lift (ask_dealer (QUpdateGeolocation coords)) in
  let! found' := attemptEnrichContentWithPageMetadata (found results) shouldFetchArtifactsFrom in
  retE (mkDelta found' (lost results)).

Definition imageFound (detectedImage : DetectedImage)
    (shouldFetchArtifactsFrom : option (ShouldFetchArtifactsFromCallback + list string))
    : E NearbyResultDelta :=
  let shouldFetchArtifactsFrom := normalizeShouldFetchFn shouldFetchArtifactsFrom in
  let! results := lift (ask_dealer (QImageFound detectedImage)) in
  let! found' := attemptEnrichContentWithPageMetadata (found results) shouldFetchArtifactsFrom in
  retE (mkDelta found' (lost results)).

Definition imageLost (detectedImage : DetectedImage) : M NearbyResultDelta :=
  ask_dealer (QImageLost detectedImage).

(** ** Invariant and observations *)

(** Every key of the cache is the identity of a URL instance that exists. *)
Definition wf σ : Prop :=
  ∀ k thing, pageMetadataCache σ !! k = Some thing → k < next_url σ.

Definition is_fetch (e : Event) : bool :=
  match e with
  | EvFetch _ => true
  | _ => false
  end.

(** The fetches in a trace. *)
Definition fetches (t : list Event) : nat := length (List.filter is_fetch t).

(** From [σ] to [σ'] the store and the dealer are untouched, the only
    events are fetches, and the cache stays well-formed. *)
Definition enriches σ σ' : Prop :=
  artstore σ' = artstore σ ∧ artdealer σ' = artdealer σ ∧
  (∃ evs, trace σ' = trace σ ++ evs ∧ forallb is_fetch evs = true) ∧
  (wf σ → wf σ').

(** The call [thing.hasOwnProperty(...)] on the Thing at [l] does not
    throw: the Thing has a prototype and no own property of that name. *)
Definition can_call_hasOwnProperty (σ : State) (l : loc) : bool :=
  negb (bool_decide (l ∈ bare σ))
  && bool_decide (default ∅ (heap σ !! l) !! "hasOwnProperty" = None).

(** A result the loop passes over: no result object, no content or the
    empty string (the [continue]), or a Thing whose [url] is falsy, or which
    answers the call of [hasOwnProperty] and has a [name] of its own. *)
Definition settled (σ : State) (r : loc) : bool :=
  match nearby σ !! r with
  | None => true
  | Some result =>
      match content result with
      | None => true
      | Some (CStr s) => String.eqb s ""
      | Some (CThing l) =>
          negb (truthy (get_prop (default ∅ (heap σ !! l)) "url"))
          || (can_call_hasOwnProperty σ l
              && hasOwnProperty (default ∅ (heap σ !! l)) "name")
      end
  end.

(** A result the loop does not throw on: its content is no Thing, or the
    [url] of the Thing is falsy, or the Thing answers the call of
    [hasOwnProperty]. *)
Definition harmless (σ : State) (r : loc) : bool :=
  match nearby σ !! r with
  | Some result =>
      match content result with
      | Some (CThing l) =>
          negb (truthy (get_prop (default ∅ (heap σ !! l)) "url"))
          || can_call_hasOwnProperty σ l
      | _ => true
      end
  | None => true
  end.

(** What the loop may have done to a result object: the artifact is the
    one it had, and the content is the one it had or, when there was one,
    a Thing. *)
Definition enriched_from (result result' : NearbyResult) : Prop :=
  artifact result' = artifact result ∧
  (content result' = content result ∨
   (is_Some (content result) ∧ ∃ thing, content result' = Some (CThing thing))).

(** The result objects from [σ] to [σ'], when only the results of [rs] were
    visited: every object is still there, enriched or as it was, and the
    objects outside [rs] are as they were; no object has appeared. *)
Definition results_kept (rs : list loc) (σ σ' : State) : Prop :=
  ∀ r0,
    match nearby σ !! r0 with
    | Some result =>
        ∃ result', nearby σ' !! r0 = Some result' ∧ enriched_from result result' ∧
                   (r0 ∉ rs → result' = result)
    | None => nearby σ' !! r0 = None
    end.

(** From [σ] to [σ'] nothing has happened but, possibly, the making of URL
    instances. *)
Definition unchanged (σ σ' : State) : Prop :=
  artstore σ' = artstore σ ∧ artdealer σ' = artdealer σ ∧
  pageMetadataCache σ' = pageMetadataCache σ ∧ heap σ' = heap σ ∧
  net σ' = net σ ∧ trace σ' = trace σ ∧
  nearby σ' = nearby σ ∧ bare σ' = bare σ.

(** The state after [result.content = Object.assign(pageMetadata,
    result.content)], from the state [σ]: [thing] is the object
    [pageMetadata], [l] the content of the result at [r], whose fields were
    [result]. *)
Definition after_merge (r : loc) (result : NearbyResult) (thing l : loc) (σ : State)
    : State :=
  mkState (artstore σ) (artdealer σ) (pageMetadataCache σ)
    (<[thing := assign_fields (bool_decide (thing ∈ bare σ))
                  (default ∅ (heap σ !! thing)) (default ∅ (heap σ !! l))]> (heap σ))
    (net σ) (next_url σ) (trace σ)
    (<[r := mkNearbyResult (artifact result) (Some (CThing thing))]> (nearby σ))
    (if assign_bare (bool_decide (thing ∈ bare σ))
          (default ∅ (heap σ !! thing)) (default ∅ (heap σ !! l))
     then {[thing]} ∪ bare σ else bare σ).

(** *** The enrichment as a relation

    What one pass of the loop does to the result at [r], case by case:
    from the state [σ] it ends with the outcome [out] in the state [σ']. *)
Inductive Enriched (f : ShouldFetchArtifactsFromCallback) (r : loc) (σ : State)
    : Outcome unit → State → Prop :=
  (** no content, or the empty string: passed over *)
  | Enriched_skip :
      (nearby σ !! r = None ∨
       ∃ result, nearby σ !! r = Some result ∧
                 (content result = None ∨ content result = Some (CStr ""))) →
      Enriched f r σ (Returned tt) σ
  (** a string for which metadata is obtained: the content is the Thing *)
  | Enriched_string_replaced result (s : string) thing σ1 :
      nearby σ !! r = Some result →
      content result = Some (CStr s) →
      s ≠ "" →
      tryExtractPageMetadata s f σ = (Some thing, σ1) →
      Enriched f r σ (Returned tt)
        (set_nearby
           (<[r := mkNearbyResult (artifact result) (Some (CThing thing))]> (nearby σ1))
           σ1)
  (** a string for which none is obtained: left as it is *)
  | Enriched_string_left result (s : string) σ1 :
      nearby σ !! r = Some result →
      content result = Some (CStr s) →
      s ≠ "" →
      tryExtractPageMetadata s f σ = (None, σ1) →
      Enriched f r σ (Returned tt) σ1
  (** a Thing with no truthy [url]: passed over *)
  | Enriched_no_url result l :
      nearby σ !! r = Some result →
      content result = Some (CThing l) →
      truthy (get_prop (default ∅ (heap σ !! l)) "url") = false →
      Enriched f r σ (Returned tt) σ
  (** a Thing with a [url] on which [hasOwnProperty] cannot be called *)
  | Enriched_throws result l :
      nearby σ !! r = Some result →
      content result = Some (CThing l) →
      truthy (get_prop (default ∅ (heap σ !! l)) "url") = true →
      can_call_hasOwnProperty σ l = false →
      Enriched f r σ (Threw TypeError) σ
  (** a Thing with a [url] and a [name]: passed over *)
  | Enriched_named result l :
      nearby σ !! r = Some result →
      content result = Some (CThing l) →
      truthy (get_prop (default ∅ (heap σ !! l)) "url") = true →
      can_call_hasOwnProperty σ l = true →
      is_Some (default ∅ (heap σ !! l) !! "name") →
      Enriched f r σ (Returned tt) σ
  (** a Thing with a [url] and no [name], no metadata: left as it is *)
  | Enriched_thing_left result l σ1 :
      nearby σ !! r = Some result →
      content result = Some (CThing l) →
      truthy (get_prop (default ∅ (heap σ !! l)) "url") = true →
      can_call_hasOwnProperty σ l = true →
      default ∅ (heap σ !! l) !! "name" = None →
      tryExtractPageMetadata
        (js_to_string (get_prop (default ∅ (heap σ !! l)) "url")) f σ = (None, σ1) →
      Enriched f r σ (Returned tt) σ1
  (** metadata of another type: left as it is *)
  | Enriched_mismatch result l thing σ1 :
      nearby σ !! r = Some result →
      content result = Some (CThing l) →
      truthy (get_prop (default ∅ (heap σ !! l)) "url") = true →
      can_call_hasOwnProperty σ l = true →
      default ∅ (heap σ !! l) !! "name" = None →
      tryExtractPageMetadata
        (js_to_string (get_prop (default ∅ (heap σ !! l)) "url")) f σ
        = (Some thing, σ1) →
      get_prop (default ∅ (heap σ1 !! thing)) "@type"
        ≠ get_prop (default ∅ (heap σ1 !! l)) "@type" →
      Enriched f r σ (Returned tt) σ1
  (** metadata of the same type: the fields of the content are assigned to
      the Thing obtained, which becomes the content *)
  | Enriched_merged result l thing σ1 :
      nearby σ !! r = Some result →
      content result = Some (CThing l) →
      truthy (get_prop (default ∅ (heap σ !! l)) "url") = true →
      can_call_hasOwnProperty σ l = true →
      default ∅ (heap σ !! l) !! "name" = None →
      tryExtractPageMetadata
        (js_to_string (get_prop (default ∅ (heap σ !! l)) "url")) f σ
        = (Some thing, σ1) →
      get_prop (default ∅ (heap σ1 !! thing)) "@type"
        = get_prop (default ∅ (heap σ1 !! l)) "@type" →
      Enriched f r σ (Returned tt) (after_merge r result thing l σ1).

(** The results of a list, in order; the first error ends the pass. *)
Inductive EnrichedAll (f : ShouldFetchArtifactsFromCallback)
    : list loc → State → Outcome unit → State → Prop :=
  | EnrichedAll_nil σ : EnrichedAll f [] σ (Returned tt) σ
  | EnrichedAll_cons r rest σ σ1 out σ2 :
      Enriched f r σ (Returned tt) σ1 →
      EnrichedAll f rest σ1 out σ2 →
      EnrichedAll f (r :: rest) σ out σ2
  | EnrichedAll_throws r rest σ e σ1 :
      Enriched f r σ (Threw e) σ1 →
      EnrichedAll f (r :: rest) σ (Threw e) σ1.

(** The outcome [out] of a method that, from [σ], forwards the query [q] to
    the dealer and enriches what was found: the store is as it was, the
    dealer is asked first and with that store, what follows are fetches;
    the results found are enriched in order from the state [σq] in which the
    dealer has answered; when the pass ends without an error the delta
    returned is the dealer's, its two arrays as they were, and when it
    throws so does the method. *)
Definition forwards_and_enriches (q : DealerQuery)
    (f : ShouldFetchArtifactsFromCallback) (σ : State)
    (out : Outcome NearbyResultDelta * State) : Prop :=
  artstore (snd out) = artstore σ ∧
  (∃ evs, trace (snd out) = trace σ ++ [EvDealer q (artstore σ)] ++ evs ∧
          forallb is_fetch evs = true) ∧
  ∃ pass,
    EnrichedAll f (found (fst (ask_dealer q σ))) (snd (ask_dealer q σ)) pass (snd out) ∧
    match pass with
    | Returned _ => fst out = Returned (fst (ask_dealer q σ))
    | Threw e => fst out = Threw e
    end.

End MeaningMaker.

(** ** A small web to run the methods on

    Pages are reduced to what the collaborators read from them: the
    metadata of the page and the artifacts embedded in it.  An artifact is a
    marker value with a content; the dealer answers [markerFound] with a new
    result for each artifact of the store that carries the marker. *)

Module Web.

Record Page := mkPage {
  page_metadata : Fields;
  page_artifacts : list (string * Content)
}.

(** The characters of [s] before the first slash. *)
Fixpoint host_of (s : string) : string :=
  match s with
  | EmptyString => EmptyString
  | String c rest => if Ascii.eqb c "/"%char then EmptyString else String c (host_of rest)
  end.

(** Absolute [https] URLs only; the origin is the scheme with the host. *)
Definition parse (s : string) : option (string * string) :=
  if String.prefix "https://" s
  then Some (s, ("https://" ++ host_of (String.substring 8 (String.length s - 8) s))%string)
  else None.

(** A new result object for each artifact, in order. *)
Fixpoint make_results (artifacts : list (string * Content))
    (n : gmap loc (NearbyResultOf (string * Content)))
    : list loc * gmap loc (NearbyResultOf (string * Content)) :=
  match artifacts with
  | [] => ([], n)
  | a :: rest =>
      let r := fresh (dom n) in
      let '(rs, n') := make_results rest (<[r := mkNearbyResult a (Some (snd a))]> n) in
      (r :: rs, n')
  end.

Definition answer (m : string) (store : list (string * Content))
    (n : gmap loc (NearbyResultOf (string * Content)))
    : NearbyResultDelta * gmap loc (NearbyResultOf (string * Content)) :=
  let '(rs, n') := make_results (List.filter (fun a => String.eqb (fst a) m) store) n in
  (mkDelta rs [], n').

#[export] Instance web : Collaborators := {|
  Document := Page;
  ARArtifact := string * Content;
  Marker := string;
  DetectedImage := unit;
  GeoCoordinates := unit;
  Dealer := unit;
  Net := gmap string Page;
  marker_value := fun m => m;
  window_location_origin := "https://example.com";
  parseURL := parse;
  fetchAsDocument := fun u n => (n !! href u, n);
  extractPageMetadata := fun d _ => page_metadata d;
  fromElement := fun d _ => page_artifacts d;
  fromJsonUrl := fun _ n => ([], n);
  dealer_markerFound := fun m store d n => let '(delta, n') := answer m store n in (delta, d, n');
  dealer_markerLost := fun _ _ d n => (mkDelta [] [], d, n);
  dealer_updateGeolocation := fun _ _ d n => (mkDelta [] [], d, n);
  dealer_imageFound := fun _ _ d n => (mkDelta [] [], d, n);
  dealer_imageLost := fun _ _ d n => (mkDelta [] [], d, n)
|}.

Definition e1 : string := "https://example.com/e1".

(** The page at [e1] describes an event called Launch. *)
Definition launch : Fields :=
  {[ "@type" := VStr "Event"; "name" := VStr "Launch"; "url" := VStr e1 ]}.

(** The same page, but about a place. *)
Definition place : Fields :=
  {[ "@type" := VStr "Place"; "name" := VStr "Launch"; "url" := VStr e1 ]}.

(** A content that has a [url] and no [name]. *)
Definition partial : Fields := {[ "@type" := VStr "Event"; "url" := VStr e1 ]}.


(** The same content with an own property [hasOwnProperty]. *)
Definition partial_hop : Fields := <[ "hasOwnProperty" := VStr "x" ]> partial.

Definition net_launch : gmap string Page :=
  {[ e1 := mkPage launch [(e1, CStr e1)] ]}.

Definition net_place : gmap string Page :=
  {[ e1 := mkPage place [] ]}.

(** A result whose content is the Thing at location 1. *)
Definition partial_result : NearbyResult := mkNearbyResult (e1, CThing 1) (Some (CThing 1)).

(** A result whose content is the address of the page. *)
Definition string_result : NearbyResult := mkNearbyResult (e1, CStr e1) (Some (CStr e1)).

(** A coordinator with nothing loaded, one Thing on the heap, at location
    1, and two results of the dealer: at 1 the result whose content is that
    Thing, at 2 the result whose content is the address. *)
Definition start_with (o : Fields) (n : gmap string Page) : State :=
  mkState [] tt ∅ {[ 1%positive := o ]} n 0 []
          {[ 1%positive := partial_result; 2%positive := string_result ]} ∅.

(** The Thing is the partial content. *)
Definition start (n : gmap string Page) : State := start_with partial n.

Definition allow_all : ShouldFetchArtifactsFromCallback := fun _ => Some true.

(** A marker that carries the address of the page. *)
Definition marker_e1 : Marker := e1.

(** The state after the metadata of [e1] has been resolved once. *)
Definition resolved (n : gmap string Page) : State :=
  snd (tryExtractPageMetadata e1 allow_all (start n)).

(** The origin of the pages. *)
Definition example_com : string := "https://example.com".

(** An address with no page behind it. *)
Definition gone : string := "https://example.com/gone".

(** A marker that carries no address. *)
Definition marker_text : Marker := "not a url".

(** A policy that allows no origin. *)
Definition no_origin : ShouldFetchArtifactsFromCallback :=
  normalizeShouldFetchFn (Some (inr [])).

End Web.
(** * Properties *)

Section Properties.
Context `{C : Collaborators}.

Implicit Types (σ : State) (url u : URL) (f : ShouldFetchArtifactsFromCallback).
Implicit Types (result : NearbyResult) (l thing : loc).

(** ** The fetch policy gate *)

Lemma new_URL_run s σ :
  new_URL s σ =
    match parseURL s with
    | Some (h, o) => (Some (mkURL (next_url σ) h o), set_next_url (S (next_url σ)) σ)
    | None => (None, σ)
    end.
Proof. reflexivity. Qed.

(** The gate, case by case. *)
Lemma checkIsFetchableURL_run s f σ :
  checkIsFetchableURL s f σ =
    match parseURL s with
    | Some (h, o) =>
        (if bool_decide (f (mkURL (next_url σ) h o) = Some true)
         then Some (mkURL (next_url σ) h o) else None,
         set_next_url (S (next_url σ)) σ)
    | None => (None, σ)
    end.
Proof.
  unfold checkIsFetchableURL, bind. rewrite new_URL_run.
  destruct (parseURL s) as [[h o]|]; [|done].
  simpl. case_bool_decide as Hf; [by rewrite Hf|].
  by destruct (f _) as [[|]|].
Qed.

(** The gate touches nothing the class keeps: only the supply of URL
    identities moves. *)
Lemma checkIsFetchableURL_frame s f σ r σ' :
  checkIsFetchableURL s f σ = (r, σ') →
  artstore σ' = artstore σ ∧ artdealer σ' = artdealer σ ∧
  pageMetadataCache σ' = pageMetadataCache σ ∧ heap σ' = heap σ ∧
  net σ' = net σ ∧ trace σ' = trace σ ∧ next_url σ ≤ next_url σ'.
Proof.
  rewrite checkIsFetchableURL_run.
  destruct (parseURL s) as [[h o]|]; intros E; inversion E; subst; simpl;
    repeat split; lia.
Qed.

(** A URL that comes out of the gate is the new instance. *)
Lemma checkIsFetchableURL_Some s f σ u σ' :
  checkIsFetchableURL s f σ = (Some u, σ') →
  url_id u = next_url σ ∧ parseURL s = Some (href u, origin u) ∧
  f u = Some true ∧ σ' = set_next_url (S (next_url σ)) σ.
Proof.
  rewrite checkIsFetchableURL_run.
  destruct (parseURL s) as [[h o]|]; [|done].
  case_bool_decide; intros [= <- <-]; done.
Qed.

(** C5. For every candidate string and every policy predicate, the gate
    returns the parsed URL exactly when the string parses as an absolute URL
    and the predicate returns true for that URL; in every other case (the
    string does not parse, the predicate returns false, the predicate
    throws) it returns [null], and it always returns. *)
Theorem checkIsFetchableURL_spec s f σ :
  (∀ u, fst (checkIsFetchableURL s f σ) = Some u ↔
        ∃ h o, parseURL s = Some (h, o) ∧ u = mkURL (next_url σ) h o ∧
               f u = Some true) ∧
  (fst (checkIsFetchableURL s f σ) = None ↔
        parseURL s = None ∨
        ∃ h o, parseURL s = Some (h, o) ∧ f (mkURL (next_url σ) h o) ≠ Some true).
Proof.
  rewrite checkIsFetchableURL_run.
  destruct (parseURL s) as [[h o]|]; simpl.
  - case_bool_decide as Hf; split.
    + intros u; split.
      * intros [= <-]. by exists h, o.
      * intros (h' & o' & [= <- <-] & -> & _). done.
    + split; [done|]. intros [|(h' & o' & [= <- <-] & Hn)]; done.
    + intros u; split; [done|].
      intros (h' & o' & [= <- <-] & -> & Hu). done.
    + split; [|done]. intros _. right. by exists h, o.
  - split.
    + intros u; split; [done|]. intros (? & ? & ? & _); done.
    + split; [by left|done].
Qed.

(** ** The default policy *)

Lemma default_policy_run u :
  normalizeShouldFetchFn None u = Some (bool_decide (origin u = window_location_origin)).
Proof.
  simpl. f_equal.
  destruct (String.eqb_spec (origin u) window_location_origin);
    by case_bool_decide.
Qed.

(** C10. With no policy argument, the normalized predicate allows a URL
    exactly when its origin is [window.location.origin], so the gate lets a
    candidate through exactly when it parses and has that origin. *)
Theorem default_policy_same_origin :
  (∀ u, normalizeShouldFetchFn None u = Some true ↔ origin u = window_location_origin) ∧
  (∀ u, normalizeShouldFetchFn None u = Some false ↔ origin u ≠ window_location_origin) ∧
  (∀ s σ, is_Some (fst (checkIsFetchableURL s (normalizeShouldFetchFn None) σ)) ↔
          ∃ h, parseURL s = Some (h, window_location_origin)).
Proof.
  split; [|split].
  - intros u. rewrite default_policy_run. case_bool_decide; naive_solver.
  - intros u. rewrite default_policy_run. case_bool_decide; naive_solver.
  - intros s σ. rewrite checkIsFetchableURL_run.
    destruct (parseURL s) as [[h og]|].
    + rewrite default_policy_run. simpl.
      case_bool_decide as Hf.
      * injection Hf as Hf. apply bool_decide_eq_true in Hf. subst og.
        split; [by eauto|]. by intros _.
      * split; [by intros [? ?]|]. intros (h' & [= <- ->]).
        exfalso. apply Hf. f_equal. by apply bool_decide_eq_true.
    + split; [by intros [? ?]|]. by intros [? ?].
Qed.

(** ** The page metadata cache *)

Lemma savePageMetadata_run doc u σ :
  savePageMetadata doc u σ =
    (fresh (dom (heap σ)),
     mkState (artstore σ) (artdealer σ)
       (<[url_id u := fresh (dom (heap σ))]> (pageMetadataCache σ))
       (<[fresh (dom (heap σ)) := extractPageMetadata doc u]> (heap σ))
       (net σ) (next_url σ) (trace σ) (nearby σ)
       (bare σ ∖ {[fresh (dom (heap σ))]})).
Proof. reflexivity. Qed.

Lemma fresh_heap_None σ : heap σ !! fresh (dom (heap σ)) = None.
Proof. apply not_elem_of_dom, is_fresh. Qed.

Lemma heap_alloc_subseteq σ (o : Fields) :
  heap σ ⊆ <[fresh (dom (heap σ)) := o]> (heap σ).
Proof. apply insert_subseteq, fresh_heap_None. Qed.

(** A URL instance that is a key of the cache is answered from the cache:
    no fetch, no change of state. *)
Lemma extractForURL_hit u σ thing :
  pageMetadataCache σ !! url_id u = Some thing →
  extractForURL u σ = (Some thing, σ).
Proof. intros H. unfold extractForURL, bind, gets. by rewrite H. Qed.

(** A URL instance that is not a key of the cache is fetched. *)
Lemma extractForURL_miss u σ :
  pageMetadataCache σ !! url_id u = None →
  extractForURL u σ =
    match fetchAsDocument u (net σ) with
    | (Some doc, n) =>
        let '(thing, σ') := savePageMetadata doc u (log (EvFetch u) (set_net n σ)) in
        (Some thing, σ')
    | (None, n) => (None, log (EvFetch u) (set_net n σ))
    end.
Proof.
  intros H. unfold extractForURL, bind, gets, fetch. rewrite H.
  by destruct (fetchAsDocument u (net σ)) as [[doc|] n].
Qed.

(** What a call of [extractForURL] can do to the state. *)
Lemma extractForURL_frame u σ res σ' :
  extractForURL u σ = (res, σ') →
  artstore σ' = artstore σ ∧ artdealer σ' = artdealer σ ∧
  heap σ ⊆ heap σ' ∧ next_url σ' = next_url σ ∧
  (∃ evs, trace σ' = trace σ ++ evs ∧ forallb is_fetch evs = true) ∧
  (∀ k thing, pageMetadataCache σ' !! k = Some thing →
     k = url_id u ∨ pageMetadataCache σ !! k = Some thing) ∧
  match res with
  | Some thing =>
      pageMetadataCache σ' !! url_id u = Some thing
  | None => pageMetadataCache σ' = pageMetadataCache σ ∧ heap σ' = heap σ
  end.
Proof.
  destruct (pageMetadataCache σ !! url_id u) as [t|] eqn:Hc.
  - rewrite (extractForURL_hit _ _ _ Hc). intros [= <- <-].
    repeat split; auto. exists []. by rewrite app_nil_r.
  - rewrite (extractForURL_miss _ _ Hc).
    destruct (fetchAsDocument u (net σ)) as [[doc|] n].
    + rewrite savePageMetadata_run. simpl. intros [= <- <-]. simpl.
      repeat split; auto.
      * apply heap_alloc_subseteq.
      * by exists [EvFetch u].
      * intros k t. rewrite lookup_insert. case_decide; naive_solver.
      * apply lookup_insert_eq.
    + intros [= <- <-]. simpl. repeat split; auto. by exists [EvFetch u].
Qed.

Lemma tryExtractPageMetadata_run s f σ :
  tryExtractPageMetadata s f σ =
    match checkIsFetchableURL s f σ with
    | (Some u, σ1) => extractForURL u σ1
    | (None, σ1) => (None, σ1)
    end.
Proof.
  unfold tryExtractPageMetadata, bind.
  by destruct (checkIsFetchableURL s f σ) as [[u|] σ1].
Qed.

(** What a call of [tryExtractPageMetadata] can do to the state. *)
Lemma tryExtractPageMetadata_frame s f σ res σ' :
  tryExtractPageMetadata s f σ = (res, σ') →
  artstore σ' = artstore σ ∧ artdealer σ' = artdealer σ ∧
  heap σ ⊆ heap σ' ∧
  (∃ evs, trace σ' = trace σ ++ evs ∧ forallb is_fetch evs = true) ∧
  (wf σ → wf σ') ∧
  match res with
  | Some thing =>
      ∃ u, parseURL s = Some (href u, origin u) ∧ f u = Some true ∧
           pageMetadataCache σ' !! url_id u = Some thing
  | None => pageMetadataCache σ' = pageMetadataCache σ ∧ heap σ' = heap σ
  end.
Proof.
  rewrite tryExtractPageMetadata_run.
  destruct (checkIsFetchableURL s f σ) as [[u|] σ1] eqn:Hg.
  - apply checkIsFetchableURL_Some in Hg as (Hid & Hp & Hf & ->).
    intros He. apply extractForURL_frame in He
      as (Hs & Hd & Hh & Hn & Ht & Hc & Hres). simpl in *.
    repeat split; auto.
    + intros Hwf k t Hk. rewrite Hn.
      destruct (Hc _ _ Hk) as [->|Hk']; [lia|]. apply Hwf in Hk'. lia.
    + destruct res as [t|]; [by exists u|done].
  - apply checkIsFetchableURL_frame in Hg as (Hs & Hd & Hc & Hh & _ & Ht & Hn).
    intros [= <- <-]. rewrite Hh. repeat split; auto.
    + exists []. by rewrite app_nil_r.
    + intros Hwf k t Hk. rewrite Hc in Hk. apply Hwf in Hk. lia.
Qed.

(** In a well-formed state the cache test of [tryExtractPageMetadata] never
    succeeds: the URL instance it tests is the one the gate has just made.
    Every call that passes the gate fetches. *)
Lemma tryExtractPageMetadata_fetches s f σ u σ1 :
  wf σ →
  checkIsFetchableURL s f σ = (Some u, σ1) →
  pageMetadataCache σ1 !! url_id u = None ∧
  trace (snd (tryExtractPageMetadata s f σ)) = trace σ ++ [EvFetch u].
Proof.
  intros Hwf Hg. rewrite tryExtractPageMetadata_run, Hg.
  apply checkIsFetchableURL_Some in Hg as (Hid & _ & _ & ->). simpl.
  assert (Hnone : pageMetadataCache σ !! url_id u = None).
  { destruct (pageMetadataCache σ !! url_id u) as [t|] eqn:Hk; [|done].
    apply Hwf in Hk. lia. }
  split; [done|].
  rewrite extractForURL_miss by done. simpl.
  by destruct (fetchAsDocument u (net σ)) as [[doc|] n].
Qed.

(** A metadata that comes out of [tryExtractPageMetadata] in a well-formed
    state has just been fetched and extracted: it is a new object, and it is
    the cache entry of the new URL instance. *)
Lemma tryExtractPageMetadata_Some s f σ thing σ1 :
  wf σ →
  tryExtractPageMetadata s f σ = (Some thing, σ1) →
  ∃ u doc n,
    checkIsFetchableURL s f σ = (Some u, set_next_url (S (next_url σ)) σ) ∧
    fetchAsDocument u (net σ) = (Some doc, n) ∧
    heap σ !! thing = None ∧
    heap σ1 = <[thing := extractPageMetadata doc u]> (heap σ) ∧
    pageMetadataCache σ1 = <[url_id u := thing]> (pageMetadataCache σ).
Proof.
  intros Hwf. rewrite tryExtractPageMetadata_run.
  destruct (checkIsFetchableURL s f σ) as [[u|] σg] eqn:Hg; [|done].
  destruct (tryExtractPageMetadata_fetches _ _ _ _ _ Hwf Hg) as [Hnone _].
  apply checkIsFetchableURL_Some in Hg as (Hid & _ & _ & ->).
  rewrite extractForURL_miss by done. simpl.
  destruct (fetchAsDocument u (net σ)) as [[doc|] n] eqn:Hf; [|done].
  intros [= <- <-]. exists u, doc, n. simpl.
  repeat split; auto. apply fresh_heap_None.
Qed.

(** When the gate gives [null]. *)
Lemma checkIsFetchableURL_None_iff s f σ :
  fst (checkIsFetchableURL s f σ) = None ↔
    parseURL s = None ∨
    ∃ h og, parseURL s = Some (h, og) ∧ f (mkURL (next_url σ) h og) ≠ Some true.
Proof.
  rewrite checkIsFetchableURL_run.
  destruct (parseURL s) as [[h og]|]; simpl.
  - case_bool_decide as Hf; split; [done| |by right; exists h, og|done].
    intros [|(h' & og' & [= <- <-] & Hn)]; done.
  - split; [by left|done].
Qed.

(** The three ways [tryExtractPageMetadata] gives [null]: the candidate
    does not parse, the policy does not allow it, or the fetch fails. *)
Lemma tryExtractPageMetadata_None_iff s f σ :
  wf σ →
  fst (tryExtractPageMetadata s f σ) = None ↔
    parseURL s = None ∨
    ∃ h og, parseURL s = Some (h, og) ∧
      (f (mkURL (next_url σ) h og) ≠ Some true ∨
       fst (fetchAsDocument (mkURL (next_url σ) h og) (net σ)) = None).
Proof.
  intros Hwf. rewrite tryExtractPageMetadata_run.
  destruct (checkIsFetchableURL s f σ) as [[u|] σg] eqn:Hg.
  - destruct (tryExtractPageMetadata_fetches _ _ _ _ _ Hwf Hg) as [Hnone _].
    apply checkIsFetchableURL_Some in Hg as (Hid & Hp & Hf & ->).
    rewrite extractForURL_miss by done. simpl.
    assert (Hu : u = mkURL (next_url σ) (href u) (origin u)).
    { destruct u; simpl in *; by subst. }
    destruct (fetchAsDocument u (net σ)) as [[doc|] n] eqn:Hfe; simpl; split.
    + done.
    + intros [Hn|(h & og & Hp' & [Hn|Hn])]; [congruence| |];
        rewrite Hp in Hp'; injection Hp' as <- <-; rewrite <- Hu in Hn;
        [done|]. by rewrite Hfe in Hn.
    + intros _. right. exists (href u), (origin u). split; [done|].
      right. by rewrite <- Hu, Hfe.
    + done.
  - pose proof (checkIsFetchableURL_None_iff s f σ) as Hs.
    rewrite Hg in Hs. simpl in *. split; [|done]. intros _.
    destruct (proj1 Hs eq_refl) as [Hn|(h & og & Hp & Hn)]; [by left|].
    right. exists h, og. auto.
Qed.

(** C6. The page metadata cache is keyed by the identity of the URL
    instance: for two distinct instances that are string-equal, an entry
    saved under one is not found under the other, so the resolution of the
    second instance performs a fetch of its own. *)
Theorem cache_keyed_by_instance u1 u2 doc σ :
  url_id u1 ≠ url_id u2 →
  href u1 = href u2 →
  pageMetadataCache σ !! url_id u2 = None →
  ∃ thing σ1,
    savePageMetadata doc u1 σ = (thing, σ1) ∧
    pageMetadataCache σ1 !! url_id u1 = Some thing ∧
    pageMetadataCache σ1 !! url_id u2 = None ∧
    trace (snd (extractForURL u2 σ1)) = trace σ1 ++ [EvFetch u2] ∧
    fetches (trace (snd (extractForURL u2 σ1))) = S (fetches (trace σ1)).
Proof.
  intros Hne _ Hnone. rewrite savePageMetadata_run.
  eexists _, _. split; [reflexivity|]. simpl.
  assert (Hn2 : <[url_id u1 := fresh (dom (heap σ))]> (pageMetadataCache σ)
                  !! url_id u2 = None) by by rewrite lookup_insert_ne.
  split; [apply lookup_insert_eq|]. split; [done|].
  rewrite extractForURL_miss by done. simpl.
  assert (∀ σ', trace σ' = trace σ ++ [EvFetch u2] →
                trace σ' = trace σ ++ [EvFetch u2] ∧
                fetches (trace σ') = S (fetches (trace σ))) as Hcount.
  { intros σ' ->. split; [done|]. unfold fetches.
    rewrite List.filter_app, length_app. simpl. lia. }
  destruct (fetchAsDocument u2 (net σ)) as [[d|] n]; by apply Hcount.
Qed.

(** Two calls in a row with the same candidate, under a policy that allows
    it: each one fetches. *)
Lemma tryExtractPageMetadata_twice s f σ h og :
  wf σ →
  parseURL s = Some (h, og) →
  (∀ u, f u = Some true) →
  fetches (trace (snd (tryExtractPageMetadata s f
                         (snd (tryExtractPageMetadata s f σ)))))
    = 2 + fetches (trace σ).
Proof.
  intros Hwf Hp Hf.
  assert (Hstep : ∀ σ0, wf σ0 →
            wf (snd (tryExtractPageMetadata s f σ0)) ∧
            fetches (trace (snd (tryExtractPageMetadata s f σ0)))
              = S (fetches (trace σ0))).
  { intros σ0 Hwf0. split.
    - destruct (tryExtractPageMetadata s f σ0) as [res σ'] eqn:Hx.
      apply tryExtractPageMetadata_frame in Hx as (_ & _ & _ & _ & Hw & _). auto.
    - assert (Hg : checkIsFetchableURL s f σ0 =
                (Some (mkURL (next_url σ0) h og), set_next_url (S (next_url σ0)) σ0)).
      { rewrite checkIsFetchableURL_run, Hp.
        by rewrite bool_decide_eq_true_2 by apply Hf. }
      destruct (tryExtractPageMetadata_fetches _ _ _ _ _ Hwf0 Hg) as [_ ->].
      unfold fetches. rewrite List.filter_app, length_app. simpl. lia. }
  destruct (Hstep σ Hwf) as [Hwf1 H1].
  destruct (Hstep _ Hwf1) as [_ H2]. rewrite H2, H1. done.
Qed.

(** ** Loading artifacts *)

Lemma saveArtifacts_run (artifacts : list ARArtifact) σ :
  saveArtifacts artifacts σ =
    (tt, mkState (artstore σ ++ artifacts) (artdealer σ) (pageMetadataCache σ)
           (heap σ) (net σ) (next_url σ) (trace σ ++ map EvAddArtifact artifacts)
           (nearby σ) (bare σ)).
Proof.
  revert σ. induction artifacts as [|a rest IH]; intros σ; simpl.
  - unfold ret. rewrite !app_nil_r. by destruct σ.
  - unfold bind, addArtifact, modify. rewrite IH. simpl.
    by rewrite <- !app_assoc.
Qed.

(** The load of a page that cannot be fetched. *)
Lemma loadArtifactsFromHtmlUrl_null u σ :
  fst (fetchAsDocument u (net σ)) = None →
  ∃ σ', loadArtifactsFromHtmlUrl u σ = ([], σ') ∧
    pageMetadataCache σ' = pageMetadataCache σ ∧
    artstore σ' = artstore σ ∧
    heap σ' = heap σ ∧
    trace σ' = trace σ ++ [EvFetch u].
Proof.
  intros Hf. unfold loadArtifactsFromHtmlUrl, bind, fetch.
  destruct (fetchAsDocument u (net σ)) as [d n]. simpl in Hf. subst d.
  by eexists.
Qed.

(** C8. For every URL, if the fetch gives no document,
    [loadArtifactsFromHtmlUrl] returns the empty list, and neither the page
    metadata cache nor the artifact store is modified; the fetch is all that
    has happened. *)
Theorem loadArtifactsFromHtmlUrl_fetch_fails u σ :
  fst (fetchAsDocument u (net σ)) = None →
  ∃ σ', loadArtifactsFromHtmlUrl u σ = ([], σ') ∧
    pageMetadataCache σ' = pageMetadataCache σ ∧
    artstore σ' = artstore σ ∧
    heap σ' = heap σ ∧
    trace σ' = trace σ ++ [EvFetch u].
Proof.
  intros Hf. unfold loadArtifactsFromHtmlUrl, bind, fetch.
  destruct (fetchAsDocument u (net σ)) as [d n]. simpl in Hf. subst d.
  eexists. split; [reflexivity|]. done.
Qed.

(** When the document is there, its metadata is saved under this URL
    instance and its artifacts are added to the store, in this order. *)
Lemma loadArtifactsFromHtmlUrl_fetched u σ doc n :
  fetchAsDocument u (net σ) = (Some doc, n) →
  ∃ σ', loadArtifactsFromHtmlUrl u σ = (fromElement doc u, σ') ∧
    artstore σ' = artstore σ ++ fromElement doc u ∧
    artdealer σ' = artdealer σ ∧
    next_url σ' = next_url σ ∧
    pageMetadataCache σ' = <[url_id u := fresh (dom (heap σ))]> (pageMetadataCache σ) ∧
    trace σ' = trace σ ++ [EvFetch u] ++ map EvAddArtifact (fromElement doc u).
Proof.
  intros Hf. unfold loadArtifactsFromHtmlUrl, bind, fetch. rewrite Hf.
  rewrite savePageMetadata_run, saveArtifacts_run. simpl.
  eexists. split; [reflexivity|]. simpl. by rewrite <- app_assoc.
Qed.


(** ** Enrichment *)

Lemma alter_content (n : gmap loc NearbyResult) r result (c : Content) :
  n !! r = Some result →
  alter (fun result => mkNearbyResult (artifact result) (Some c)) r n
    = <[r := mkNearbyResult (artifact result) (Some c)]> n.
Proof.
  intros Hr. apply map_eq. intros k. rewrite lookup_alter, lookup_insert.
  case_decide; [subst; by rewrite Hr|done].
Qed.

(** [tryExtractPageMetadata] leaves the results alone, and the prototype of
    every object that is there. *)
Lemma tryExtractPageMetadata_results s f σ :
  nearby (snd (tryExtractPageMetadata s f σ)) = nearby σ ∧
  (bare (snd (tryExtractPageMetadata s f σ)) = bare σ ∨
   bare (snd (tryExtractPageMetadata s f σ)) = bare σ ∖ {[fresh (dom (heap σ))]}).
Proof.
  rewrite tryExtractPageMetadata_run, checkIsFetchableURL_run.
  destruct (parseURL s) as [[h og]|]; [|by auto].
  case_bool_decide; [|by auto].
  set (u := mkURL (next_url σ) h og). set (σg := set_next_url (S (next_url σ)) σ).
  destruct (pageMetadataCache σg !! url_id u) as [t|] eqn:Hc.
  - rewrite (extractForURL_hit _ _ _ Hc). by auto.
  - rewrite (extractForURL_miss _ _ Hc).
    destruct (fetchAsDocument u (net σg)) as [[doc|] n]; simpl; by auto.
Qed.

Lemma tryExtractPageMetadata_nearby s f σ res σ1 :
  tryExtractPageMetadata s f σ = (res, σ1) → nearby σ1 = nearby σ.
Proof.
  intros Hx. pose proof (tryExtractPageMetadata_results s f σ) as [Hn _].
  by rewrite Hx in Hn.
Qed.

Lemma tryExtractPageMetadata_bare s f σ res σ1 l :
  tryExtractPageMetadata s f σ = (res, σ1) →
  is_Some (heap σ !! l) →
  l ∈ bare σ1 ↔ l ∈ bare σ.
Proof.
  intros Hx Hl. pose proof (tryExtractPageMetadata_results s f σ) as [_ Hb].
  rewrite Hx in Hb. simpl in Hb. destruct Hb as [->| ->]; [done|].
  assert (l ≠ fresh (dom (heap σ))).
  { intros ->. rewrite fresh_heap_None in Hl. by destruct Hl. }
  rewrite elem_of_difference, elem_of_singleton. intuition.
Qed.

(** In a well-formed state, the Thing obtained has a prototype. *)
Lemma tryExtractPageMetadata_Some_plain s f σ thing σ1 :
  wf σ →
  tryExtractPageMetadata s f σ = (Some thing, σ1) →
  thing ∉ bare σ1.
Proof.
  intros Hwf Hx.
  destruct (tryExtractPageMetadata_Some _ _ _ _ _ Hwf Hx)
    as (u & doc & n & Hg & Hf & Hnew & Hh & Hc).
  destruct (tryExtractPageMetadata_fetches _ _ _ _ _ Hwf Hg) as [Hnone _].
  revert Hx. rewrite tryExtractPageMetadata_run, Hg.
  rewrite extractForURL_miss by done. cbn [net set_next_url]. rewrite Hf.
  rewrite savePageMetadata_run. intros [= <- <-]. simpl.
  rewrite elem_of_difference, elem_of_singleton. intuition.
Qed.

Lemma call_hasOwnProperty_can σ l k :
  call_hasOwnProperty (bool_decide (l ∈ bare σ)) (default ∅ (heap σ !! l)) k
    = if can_call_hasOwnProperty σ l
      then Returned (hasOwnProperty (default ∅ (heap σ !! l)) k)
      else Threw TypeError.
Proof.
  unfold call_hasOwnProperty, can_call_hasOwnProperty.
  destruct (default ∅ (heap σ !! l) !! "hasOwnProperty") as [v|] eqn:Hh.
  - rewrite (bool_decide_eq_false_2 (Some v = None)) by done.
    by rewrite andb_false_r.
  - rewrite (bool_decide_eq_true_2 (None = None)) by done.
    rewrite andb_true_r. by destruct (bool_decide (l ∈ bare σ)).
Qed.

Lemma can_call_hasOwnProperty_true σ l (o : Fields) :
  heap σ !! l = Some o →
  l ∉ bare σ → o !! "hasOwnProperty" = None →
  can_call_hasOwnProperty σ l = true.
Proof.
  intros Hl Hb Hh. unfold can_call_hasOwnProperty. rewrite Hl. simpl.
  rewrite bool_decide_eq_false_2 by done.
  by rewrite bool_decide_eq_true_2.
Qed.

(** The body of the loop, unfolded: where there is nothing to do. *)
Lemma enrichResult_skip f r σ :
  (nearby σ !! r = None ∨
   ∃ result, nearby σ !! r = Some result ∧
             (content result = None ∨ content result = Some (CStr ""))) →
  enrichResult f r σ = (Returned tt, σ).
Proof.
  unfold enrichResult, bindE, lift, gets.
  intros [->|(result & -> & [->| ->])]; done.
Qed.

(** The body of the loop, unfolded: a string that is not empty. *)
Lemma enrichResult_string f r result (s : string) σ :
  nearby σ !! r = Some result →
  content result = Some (CStr s) →
  s ≠ "" →
  enrichResult f r σ =
    (Returned tt,
     match fst (tryExtractPageMetadata s f σ) with
     | Some thing =>
         set_nearby
           (<[r := mkNearbyResult (artifact result) (Some (CThing thing))]>
              (nearby (snd (tryExtractPageMetadata s f σ))))
           (snd (tryExtractPageMetadata s f σ))
     | None => snd (tryExtractPageMetadata s f σ)
     end).
Proof.
  intros Hr Hc Hs. unfold enrichResult, bindE, lift, gets. rewrite Hr, Hc. simpl.
  destruct (String.eqb_spec s ""); [done|]. simpl.
  destruct (tryExtractPageMetadata s f σ) as [[thing|] σ1] eqn:Hx; simpl; [|done].
  unfold set_result_content, modify.
  rewrite (alter_content _ _ result); [done|].
  by rewrite (tryExtractPageMetadata_nearby _ _ _ _ _ Hx).
Qed.

(** The body of the loop, unfolded: a Thing. *)
Lemma enrichResult_thing f r result l σ :
  nearby σ !! r = Some result →
  content result = Some (CThing l) →
  enrichResult f r σ =
    if truthy (get_prop (default ∅ (heap σ !! l)) "url") then
      if can_call_hasOwnProperty σ l then
        if hasOwnProperty (default ∅ (heap σ !! l)) "name" then (Returned tt, σ)
        else
          match tryExtractPageMetadata
                  (js_to_string (get_prop (default ∅ (heap σ !! l)) "url")) f σ with
          | (Some thing, σ1) =>
              if strict_eq (get_prop (default ∅ (heap σ1 !! thing)) "@type")
                           (get_prop (default ∅ (heap σ1 !! l)) "@type")
              then (Returned tt, after_merge r result thing l σ1)
              else (Returned tt, σ1)
          | (None, σ1) => (Returned tt, σ1)
          end
      else (Threw TypeError, σ)
    else (Returned tt, σ).
Proof.
  intros Hr Hc. unfold enrichResult, bindE at 1, lift at 1, gets at 1.
  rewrite Hr, Hc. simpl. unfold bindE at 1, lift at 1, deref, gets. simpl.
  destruct (truthy _); [|done].
  unfold bindE at 1, call_method_hasOwnProperty.
  rewrite call_hasOwnProperty_can.
  destruct (can_call_hasOwnProperty σ l); [|done].
  destruct (hasOwnProperty _ "name"); [done|].
  unfold bindE at 1, lift at 1.
  destruct (tryExtractPageMetadata _ f σ) as [[thing|] σ1] eqn:Hx; [|done].
  unfold bindE, lift. simpl.
  destruct (strict_eq _ _); [|done].
  unfold Object_assign, set_result_content, modify, after_merge. simpl.
  rewrite (alter_content _ _ result); [done|].
  by rewrite (tryExtractPageMetadata_nearby _ _ _ _ _ Hx).
Qed.

(** The body of the loop does what the relation says. *)
Lemma enrichResult_Enriched f r σ :
  Enriched f r σ (fst (enrichResult f r σ)) (snd (enrichResult f r σ)).
Proof.
  destruct (nearby σ !! r) as [result|] eqn:Hr.
  2:{ rewrite enrichResult_skip by auto. apply Enriched_skip. auto. }
  destruct (content result) as [[s|l]|] eqn:Hc.
  - destruct (decide (s = "")) as [->|Hs].
    { rewrite enrichResult_skip by eauto. apply Enriched_skip. eauto. }
    rewrite (enrichResult_string _ _ _ _ _ Hr Hc Hs). simpl.
    destruct (tryExtractPageMetadata s f σ) as [[thing|] σ1] eqn:Hx; simpl.
    + by eapply Enriched_string_replaced.
    + by eapply Enriched_string_left.
  - rewrite (enrichResult_thing _ _ _ _ _ Hr Hc).
    destruct (truthy _) eqn:Hu; [|by eapply Enriched_no_url].
    destruct (can_call_hasOwnProperty σ l) eqn:Hcan; [|by eapply Enriched_throws].
    destruct (hasOwnProperty _ "name") eqn:Hn.
    { apply bool_decide_eq_true in Hn. by eapply Enriched_named. }
    apply bool_decide_eq_false in Hn. rewrite <- eq_None_not_Some in Hn.
    destruct (tryExtractPageMetadata _ f σ) as [[thing|] σ1] eqn:Hx.
    + destruct (strict_eq _ _) eqn:Ht; simpl.
      * apply bool_decide_eq_true in Ht. by eapply Enriched_merged.
      * apply bool_decide_eq_false in Ht. by eapply Enriched_mismatch.
    + by eapply Enriched_thing_left.
  - rewrite enrichResult_skip by eauto. apply Enriched_skip. eauto.
Qed.

Lemma attemptEnrich_cons r (rest : list loc) f σ :
  attemptEnrichContentWithPageMetadata (r :: rest) f σ =
    match enrichResult f r σ with
    | (Returned _, σ1) =>
        match attemptEnrichContentWithPageMetadata rest f σ1 with
        | (Returned rest', σ2) => (Returned (r :: rest'), σ2)
        | (Threw e, σ2) => (Threw e, σ2)
        end
    | (Threw e, σ1) => (Threw e, σ1)
    end.
Proof.
  simpl. unfold bindE at 1.
  destruct (enrichResult f r σ) as [[[]|e] σ1]; [|done].
  unfold bindE, retE.
  by destruct (attemptEnrichContentWithPageMetadata rest f σ1) as [[rest'|e] σ2].
Qed.

(** The loop does what the relation says, and the array it returns is the
    array it was given. *)
Lemma attemptEnrich_EnrichedAll (results : list loc) f σ :
  ∃ pass,
    EnrichedAll f results σ pass (snd (attemptEnrichContentWithPageMetadata results f σ)) ∧
    match pass with
    | Returned _ => fst (attemptEnrichContentWithPageMetadata results f σ) = Returned results
    | Threw e => fst (attemptEnrichContentWithPageMetadata results f σ) = Threw e
    end.
Proof.
  revert σ. induction results as [|r rest IH]; intros σ.
  { exists (Returned tt). split; [constructor|done]. }
  rewrite attemptEnrich_cons.
  pose proof (enrichResult_Enriched f r σ) as Hr.
  destruct (enrichResult f r σ) as [[[]|e] σ1]; simpl in Hr.
  - destruct (IH σ1) as (pass & Hall & Hout).
    destruct (attemptEnrichContentWithPageMetadata rest f σ1) as [[rest'|e] σ2];
      simpl in *; exists pass; (split; [by econstructor|]);
      destruct pass as [[]|e']; try done.
    by injection Hout as ->.
  - exists (Threw e). split; [by apply EnrichedAll_throws|done].
Qed.

(** *** What follows from the relation *)

Lemma enriches_refl σ : enriches σ σ.
Proof. repeat split; auto. exists []. by rewrite app_nil_r. Qed.

Lemma enriches_trans σ1 σ2 σ3 : enriches σ1 σ2 → enriches σ2 σ3 → enriches σ1 σ3.
Proof.
  intros (Hs & Hd & (e1 & Ht & He) & Hw) (Hs' & Hd' & (e2 & Ht' & He') & Hw').
  repeat split; [congruence|congruence| |auto].
  exists (e1 ++ e2). rewrite Ht', Ht, app_assoc. split; [done|].
  rewrite forallb_app, He, He'. done.
Qed.

Lemma tryExtractPageMetadata_enriches s f σ res σ1 :
  tryExtractPageMetadata s f σ = (res, σ1) → enriches σ σ1.
Proof.
  intros Hx.
  apply tryExtractPageMetadata_frame in Hx as (? & ? & _ & ? & ? & _).
  by repeat split.
Qed.

Lemma Enriched_enriches f r σ out σ' : Enriched f r σ out σ' → enriches σ σ'.
Proof.
  destruct 1;
    try apply enriches_refl;
    match goal with
    | H : tryExtractPageMetadata _ _ _ = _ |- _ =>
        apply tryExtractPageMetadata_enriches in H
    end; try done;
    destruct H3 as (? & ? & ? & ?) || destruct H5 as (? & ? & ? & ?);
    by repeat split.
Qed.

Lemma EnrichedAll_enriches f results σ out σ' :
  EnrichedAll f results σ out σ' → enriches σ σ'.
Proof.
  induction 1 as [σ|r rest σ σ1 out σ2 Hr _ IH|r rest σ e σ1 Hr].
  - apply enriches_refl.
  - eapply enriches_trans; [by eapply Enriched_enriches|done].
  - by eapply Enriched_enriches.
Qed.

Lemma attemptEnrich_enriches (results : list loc) f σ :
  enriches σ (snd (attemptEnrichContentWithPageMetadata results f σ)).
Proof.
  destruct (attemptEnrich_EnrichedAll results f σ) as (pass & Hall & _).
  by eapply EnrichedAll_enriches.
Qed.

Lemma assign_fields_source (b : bool) (p o : Fields) k v :
  k ≠ "__proto__" → o !! k = Some v → assign_fields b p o !! k = Some v.
Proof.
  intros Hk Ho. unfold assign_fields.
  destruct (b || _); apply lookup_union_Some_l; [done|].
  by rewrite lookup_delete_ne.
Qed.

Lemma assign_fields_target (b : bool) (p o : Fields) k :
  o !! k = None → assign_fields b p o !! k = p !! k.
Proof.
  intros Ho. unfold assign_fields.
  destruct (b || _); apply lookup_union_r; [done|].
  rewrite lookup_delete. by case_decide.
Qed.


(** A Thing with a [url] and no [name], on which [hasOwnProperty] can be
    called, when metadata is obtained: the two type tags decide. *)
Lemma enrichResult_partial f r result l (o : Fields) σ thing σ1 :
  nearby σ !! r = Some result →
  content result = Some (CThing l) →
  heap σ !! l = Some o →
  truthy (get_prop o "url") = true →
  l ∉ bare σ →
  o !! "hasOwnProperty" = None →
  o !! "name" = None →
  tryExtractPageMetadata (js_to_string (get_prop o "url")) f σ = (Some thing, σ1) →
  heap σ1 !! l = Some o ∧
  enrichResult f r σ =
    if strict_eq (get_prop (default ∅ (heap σ1 !! thing)) "@type") (get_prop o "@type")
    then (Returned tt, after_merge r result thing l σ1)
    else (Returned tt, σ1).
Proof.
  intros Hr Hc Hl Hurl Hb Hh Hname Hx.
  assert (Hl1 : heap σ1 !! l = Some o).
  { pose proof Hx as Hx'.
    apply tryExtractPageMetadata_frame in Hx' as (_ & _ & Hsub & _).
    by eapply lookup_weaken. }
  split; [done|].
  rewrite (enrichResult_thing _ _ _ _ _ Hr Hc), Hl. simpl.
  rewrite Hurl, (can_call_hasOwnProperty_true _ _ _ Hl Hb Hh).
  unfold hasOwnProperty.
  rewrite bool_decide_eq_false_2 by (rewrite Hname; by intros [? ?]).
  by rewrite Hx, Hl1.
Qed.

(** C9. For every result whose content is a string, the enrichment step
    ends without an error and sets the content of the result to the fetched
    Thing exactly when [tryExtractPageMetadata] on that string yields
    metadata; when it yields [null] the result object, and with it the
    string, is as it was.  No other result is touched, and the Thing
    objects, the cache and the trace are those [tryExtractPageMetadata]
    leaves.  In a well-formed state [null] means that the string does not
    parse, that the policy does not allow the URL, or that the fetch has
    failed. *)
Theorem enrich_string_content f r result (s : string) σ :
  nearby σ !! r = Some result →
  content result = Some (CStr s) →
  parseURL "" = None →
  fst (enrichResult f r σ) = Returned tt ∧
  (∀ thing, fst (tryExtractPageMetadata s f σ) = Some thing →
     nearby (snd (enrichResult f r σ)) !! r
       = Some (mkNearbyResult (artifact result) (Some (CThing thing)))) ∧
  (fst (tryExtractPageMetadata s f σ) = None →
     nearby (snd (enrichResult f r σ)) !! r = Some result) ∧
  (∀ r', r' ≠ r → nearby (snd (enrichResult f r σ)) !! r' = nearby σ !! r') ∧
  heap (snd (enrichResult f r σ)) = heap (snd (tryExtractPageMetadata s f σ)) ∧
  pageMetadataCache (snd (enrichResult f r σ))
    = pageMetadataCache (snd (tryExtractPageMetadata s f σ)) ∧
  trace (snd (enrichResult f r σ)) = trace (snd (tryExtractPageMetadata s f σ)) ∧
  (wf σ →
     fst (tryExtractPageMetadata s f σ) = None ↔
       parseURL s = None ∨
       ∃ h og, parseURL s = Some (h, og) ∧
         (f (mkURL (next_url σ) h og) ≠ Some true ∨
          fst (fetchAsDocument (mkURL (next_url σ) h og) (net σ)) = None)).
Proof.
  intros Hr Hc Hempty.
  assert (Hiff : wf σ →
     fst (tryExtractPageMetadata s f σ) = None ↔
       parseURL s = None ∨
       ∃ h og, parseURL s = Some (h, og) ∧
         (f (mkURL (next_url σ) h og) ≠ Some true ∨
          fst (fetchAsDocument (mkURL (next_url σ) h og) (net σ)) = None))
    by apply tryExtractPageMetadata_None_iff.
  destruct (decide (s = "")) as [->|Hs].
  - rewrite enrichResult_skip by eauto.
    rewrite tryExtractPageMetadata_run, checkIsFetchableURL_run, Hempty in *.
    simpl. split; [done|]. split; [by intros ? [=]|].
    do 5 (split; [done|]). exact Hiff.
  - rewrite (enrichResult_string _ _ _ _ _ Hr Hc Hs). simpl.
    destruct (tryExtractPageMetadata s f σ) as [[thing|] σ1] eqn:Hx; simpl in *.
    + pose proof (tryExtractPageMetadata_nearby _ _ _ _ _ Hx) as Hn.
      split; [done|]. split.
      { intros ? [= <-]. apply lookup_insert_eq. }
      split; [done|]. split; [|done].
      intros r' Hne. by rewrite lookup_insert_ne, Hn.
    + pose proof (tryExtractPageMetadata_nearby _ _ _ _ _ Hx) as Hn.
      split; [done|]. split; [done|]. split; [by rewrite Hn|].
      split; [|done]. intros r' _. by rewrite Hn.
Qed.


(** C2. For every result whose content is a Thing with a [url] and no
    [name], on which [hasOwnProperty] can be called, if metadata is obtained
    but its type tag is not strictly equal to the type tag of the content,
    nothing is merged: the step ends without an error, the result object is
    as it was, and so are the fields and the prototype of its content. *)
Theorem merge_refused_on_type_mismatch f r result l (o : Fields) σ thing σ1 :
  nearby σ !! r = Some result →
  content result = Some (CThing l) →
  heap σ !! l = Some o →
  truthy (get_prop o "url") = true →
  l ∉ bare σ →
  o !! "hasOwnProperty" = None →
  o !! "name" = None →
  tryExtractPageMetadata (js_to_string (get_prop o "url")) f σ = (Some thing, σ1) →
  get_prop (default ∅ (heap σ1 !! thing)) "@type" ≠ get_prop o "@type" →
  enrichResult f r σ = (Returned tt, σ1) ∧
  nearby σ1 !! r = Some result ∧
  heap σ1 !! l = Some o ∧
  l ∉ bare σ1.
Proof.
  intros Hr Hc Hl Hurl Hb Hh Hname Hx Hty.
  destruct (enrichResult_partial _ _ _ _ _ _ _ _ Hr Hc Hl Hurl Hb Hh Hname Hx)
    as [Hl1 ->].
  unfold strict_eq. rewrite bool_decide_eq_false_2 by done.
  split; [done|].
  split; [by rewrite (tryExtractPageMetadata_nearby _ _ _ _ _ Hx)|].
  split; [done|].
  by rewrite (tryExtractPageMetadata_bare _ _ _ _ _ l Hx) by eauto.
Qed.

(** C4. After a merge, the content of the enriched result and the cache
    entry of the URL instance are one object: the fields of the original
    content (all but an own [__proto__]) have been written into the cached
    Thing, which is no longer the metadata as extracted from the document,
    and every later cache hit for that URL instance returns this object with
    the merged fields. *)
Theorem merge_writes_into_cache_entry f r result l (o : Fields) σ thing σ1 :
  wf σ →
  nearby σ !! r = Some result →
  content result = Some (CThing l) →
  heap σ !! l = Some o →
  truthy (get_prop o "url") = true →
  l ∉ bare σ →
  o !! "hasOwnProperty" = None →
  o !! "name" = None →
  tryExtractPageMetadata (js_to_string (get_prop o "url")) f σ = (Some thing, σ1) →
  get_prop (default ∅ (heap σ1 !! thing)) "@type" = get_prop o "@type" →
  ∃ u doc σ',
    enrichResult f r σ = (Returned tt, σ') ∧
    fst (fetchAsDocument u (net σ)) = Some doc ∧
    heap σ1 !! thing = Some (extractPageMetadata doc u) ∧
    pageMetadataCache σ' !! url_id u = Some thing ∧
    nearby σ' !! r = Some (mkNearbyResult (artifact result) (Some (CThing thing))) ∧
    heap σ' !! thing = Some (assign_fields false (extractPageMetadata doc u) o) ∧
    (∀ k v, k ≠ "__proto__" → o !! k = Some v →
       assign_fields false (extractPageMetadata doc u) o !! k = Some v) ∧
    (∀ σ'', pageMetadataCache σ'' !! url_id u = pageMetadataCache σ' !! url_id u →
            heap σ'' !! thing = heap σ' !! thing →
            extractForURL u σ'' = (Some thing, σ'') ∧
            fst (deref thing σ'') = assign_fields false (extractPageMetadata doc u) o).
Proof.
  intros Hwf Hr Hc Hl Hurl Hb Hh Hname Hx Hty.
  destruct (enrichResult_partial _ _ _ _ _ _ _ _ Hr Hc Hl Hurl Hb Hh Hname Hx)
    as [Hl1 Hrun].
  destruct (tryExtractPageMetadata_Some _ _ _ _ _ Hwf Hx)
    as (u & doc & n & _ & Hf & _ & Hheap & Hcache).
  pose proof (tryExtractPageMetadata_Some_plain _ _ _ _ _ Hwf Hx) as Hplain.
  assert (Hp : heap σ1 !! thing = Some (extractPageMetadata doc u)).
  { rewrite Hheap. apply lookup_insert_eq. }
  rewrite Hp in Hrun, Hty. simpl in Hrun, Hty.
  unfold strict_eq in Hrun. rewrite bool_decide_eq_true_2 in Hrun by done.
  exists u, doc. eexists. rewrite Hrun.
  assert (Hk : pageMetadataCache σ1 !! url_id u = Some thing).
  { rewrite Hcache. apply lookup_insert_eq. }
  split; [reflexivity|]. unfold after_merge. simpl.
  rewrite !lookup_insert_eq, Hp, Hl1, (bool_decide_eq_false_2 _ Hplain). simpl.
  split; [by rewrite Hf|]. do 4 (split; [done|]).
  split; [intros k v; apply assign_fields_source|].
  intros σ'' Hk'' Hh''. split.
  - apply extractForURL_hit. by rewrite Hk''.
  - unfold deref, gets. simpl. by rewrite Hh''.
Qed.

(** C3 (amended). When a call for a URL instance has obtained a Thing, a
    second call for the same instance returns that same Thing from the
    cache with no fetch and no change of state: the two calls together have
    fetched at most once. *)
Theorem cached_instance_is_not_fetched_again u σ thing σ1 :
  extractForURL u σ = (Some thing, σ1) →
  extractForURL u σ1 = (Some thing, σ1) ∧
  fetches (trace (snd (extractForURL u σ1))) ≤ S (fetches (trace σ)).
Proof.
  intros Hx.
  assert (Hhit : extractForURL u σ1 = (Some thing, σ1)).
  { apply extractForURL_hit.
    by apply extractForURL_frame in Hx as (_ & _ & _ & _ & _ & _ & ?). }
  split; [done|]. rewrite Hhit. simpl.
  destruct (pageMetadataCache σ !! url_id u) as [t|] eqn:Hc.
  - rewrite (extractForURL_hit _ _ _ Hc) in Hx. injection Hx as _ <-. lia.
  - rewrite (extractForURL_miss _ _ Hc) in Hx.
    destruct (fetchAsDocument u (net σ)) as [[doc|] n]; [|done].
    rewrite savePageMetadata_run in Hx. injection Hx as _ <-. simpl.
    unfold fetches. rewrite List.filter_app, length_app. simpl. lia.
Qed.

(** ** The coordinator *)

Lemma ask_dealer_run q σ :
  trace (snd (ask_dealer q σ)) = trace σ ++ [EvDealer q (artstore σ)] ∧
  artstore (snd (ask_dealer q σ)) = artstore σ ∧
  pageMetadataCache (snd (ask_dealer q σ)) = pageMetadataCache σ ∧
  next_url (snd (ask_dealer q σ)) = next_url σ.
Proof.
  unfold ask_dealer.
  by destruct (dealer_answer q (artstore σ) (artdealer σ) (nearby σ)) as [[delta d] n].
Qed.


(** The method from the answer of the dealer on. *)
Lemma enrich_found_run (results : NearbyResultDelta) f σ :
  bindE (attemptEnrichContentWithPageMetadata (found results) f)
        (fun found' => retE (mkDelta found' (lost results))) σ
  = (match fst (attemptEnrichContentWithPageMetadata (found results) f σ) with
     | Returned found' => Returned (mkDelta found' (lost results))
     | Threw e => Threw e
     end,
     snd (attemptEnrichContentWithPageMetadata (found results) f σ)).
Proof.
  unfold bindE, retE.
  by destruct (attemptEnrichContentWithPageMetadata (found results) f σ) as [[l|e] σ'].
Qed.


(** *** Well-formedness is an invariant of the public methods *)

Lemma wf_initial (store : list ARArtifact) (d : Dealer) h (n : Net) k t nb b :
  wf (mkState store d ∅ h n k t nb b).
Proof. intros key thing. simpl. by rewrite lookup_empty. Qed.

Lemma wf_loadArtifactsFromHtmlUrl u σ :
  wf σ → url_id u < next_url σ → wf (snd (loadArtifactsFromHtmlUrl u σ)).
Proof.
  intros Hwf Hu.
  destruct (fetchAsDocument u (net σ)) as [[doc|] n] eqn:Hf.
  - destruct (loadArtifactsFromHtmlUrl_fetched _ _ _ _ Hf)
      as (σ1 & -> & _ & _ & Hn & Hc & _). simpl.
    intros k t. rewrite Hc, Hn, lookup_insert.
    case_decide; [intros _; by subst|apply Hwf].
  - destruct (loadArtifactsFromHtmlUrl_null u σ) as (σ1 & Hl & Hc & _).
    { by rewrite Hf. }
    rewrite Hl. simpl. revert Hl.
    unfold loadArtifactsFromHtmlUrl, bind, fetch. rewrite Hf.
    intros [= <-]. exact Hwf.
Qed.

Lemma wf_ask_dealer q σ : wf σ → wf (snd (ask_dealer q σ)).
Proof.
  intros Hwf k t. pose proof (ask_dealer_run q σ) as (_ & _ & Hc & Hn).
  rewrite Hc, Hn. apply Hwf.
Qed.

Lemma wf_markerFound (marker : Marker)
    (policy : option (ShouldFetchArtifactsFromCallback + list string)) σ :
  wf σ → wf (snd (markerFound marker policy σ)).
Proof.
  intros Hwf. unfold markerFound. cbv zeta.
  set (f := normalizeShouldFetchFn policy).
  unfold bindE at 1, lift at 1.
  destruct (checkIsFetchableURL _ _ σ) as [[u|] σg] eqn:Hg.
  - pose proof (checkIsFetchableURL_Some _ _ _ _ _ Hg) as (Hid & _ & _ & ->).
    assert (Hwfg : wf (set_next_url (S (next_url σ)) σ)).
    { intros k t Hk. apply Hwf in Hk. simpl in *. lia. }
    pose proof (wf_loadArtifactsFromHtmlUrl u _ Hwfg) as Hwf1.
    unfold bindE at 1, lift at 1, bind at 1.
    destruct (loadArtifactsFromHtmlUrl u _) as [arts σ1].
    unfold ret at 1. unfold bindE at 1, lift at 1.
    pose proof (wf_ask_dealer (QMarkerFound marker) σ1) as Hwf2.
    destruct (ask_dealer (QMarkerFound marker) σ1) as [results σ2].
    rewrite enrich_found_run. simpl.
    apply attemptEnrich_enriches, Hwf2, Hwf1. simpl. lia.
  - apply checkIsFetchableURL_frame in Hg as (_ & _ & Hc & _ & _ & _ & Hn).
    assert (Hwfg : wf σg).
    { intros k t. rewrite Hc. intros Hk. apply Hwf in Hk. lia. }
    unfold bindE at 1, lift at 1. unfold ret at 1. unfold bindE at 1, lift at 1.
    pose proof (wf_ask_dealer (QMarkerFound marker) σg Hwfg) as Hwf2.
    destruct (ask_dealer (QMarkerFound marker) σg) as [results σ2].
    rewrite enrich_found_run. simpl.
    by apply attemptEnrich_enriches.
Qed.

End Properties.

(** * Further properties of the methods *)

Section Coverage.
Context `{C : Collaborators}.

Implicit Types (σ : State) (url u : URL) (f : ShouldFetchArtifactsFromCallback).
Implicit Types (result : NearbyResult) (l thing : loc).

(** ** The policy given as an array of origins *)

Lemma find_origin (origins : list string) (og : string) :
  List.find (fun o => String.eqb o og) origins
    = if bool_decide (og ∈ origins) then Some og else None.
Proof.
  induction origins as [|a rest IH]; simpl.
  - done.
  - destruct (String.eqb_spec a og) as [->|Hne].
    + rewrite bool_decide_eq_true_2; [done|]. apply elem_of_cons. by left.
    + rewrite IH. case_bool_decide as Hin.
      * rewrite bool_decide_eq_true_2; [done|]. apply elem_of_cons. by right.
      * rewrite bool_decide_eq_false_2; [done|].
        intros [?|?]%elem_of_cons; [by subst|done].
Qed.

(** X1. With an array of origins the normalized predicate never throws; it
    allows a URL exactly when the origin of the URL is an element of the
    array and is not the empty string (the element found goes through [!!]). *)
Theorem origins_policy_membership (origins : list string) u :
  (normalizeShouldFetchFn (Some (inr origins)) u = Some true ↔
     origin u ∈ origins ∧ origin u ≠ "") ∧
  (normalizeShouldFetchFn (Some (inr origins)) u = Some false ↔
     origin u ∉ origins ∨ origin u = "").
Proof.
  simpl. rewrite find_origin.
  case_bool_decide as Hin; simpl.
  - destruct (String.eqb_spec (origin u) "") as [He|He]; simpl;
      intuition congruence.
  - intuition congruence.
Qed.

(** ** The gate *)

(** X2. The gate has no effect on what the class keeps: whatever the
    candidate and the callback, the store, the dealer, the cache, the Thing
    objects and the network are as before and nothing has been fetched. *)
Theorem gate_has_no_effect s f σ :
  artstore (snd (checkIsFetchableURL s f σ)) = artstore σ ∧
  artdealer (snd (checkIsFetchableURL s f σ)) = artdealer σ ∧
  pageMetadataCache (snd (checkIsFetchableURL s f σ)) = pageMetadataCache σ ∧
  heap (snd (checkIsFetchableURL s f σ)) = heap σ ∧
  net (snd (checkIsFetchableURL s f σ)) = net σ ∧
  trace (snd (checkIsFetchableURL s f σ)) = trace σ.
Proof.
  destruct (checkIsFetchableURL s f σ) as [r σ'] eqn:Hg.
  apply checkIsFetchableURL_frame in Hg as (? & ? & ? & ? & ? & ? & _).
  by repeat split.
Qed.

(** X3. Two calls of the gate in a row with the same candidate give two
    URL instances: the same [href] and [origin], two identities. *)
Theorem gate_makes_new_instance s f f' σ u1 σ1 u2 σ2 :
  checkIsFetchableURL s f σ = (Some u1, σ1) →
  checkIsFetchableURL s f' σ1 = (Some u2, σ2) →
  url_id u1 ≠ url_id u2 ∧ href u1 = href u2 ∧ origin u1 = origin u2.
Proof.
  intros (Hid1 & Hp1 & _ & ->)%checkIsFetchableURL_Some
         (Hid2 & Hp2 & _ & _)%checkIsFetchableURL_Some.
  simpl in *. rewrite Hp1 in Hp2. injection Hp2 as Hh Ho.
  repeat split; [lia|done|done].
Qed.

(** ** Resolving metadata *)

(** X4. A candidate that does not parse, or that the policy does not allow
    (a callback that returns false or throws), gives [null] and nothing is
    fetched: the trace, the network, the cache and the Thing objects are as
    before. *)
Theorem not_fetchable_no_fetch s f σ :
  (parseURL s = None ∨
   ∃ h og, parseURL s = Some (h, og) ∧ f (mkURL (next_url σ) h og) ≠ Some true) →
  fst (tryExtractPageMetadata s f σ) = None ∧
  trace (snd (tryExtractPageMetadata s f σ)) = trace σ ∧
  net (snd (tryExtractPageMetadata s f σ)) = net σ ∧
  pageMetadataCache (snd (tryExtractPageMetadata s f σ)) = pageMetadataCache σ ∧
  heap (snd (tryExtractPageMetadata s f σ)) = heap σ.
Proof.
  intros Hno. apply checkIsFetchableURL_None_iff in Hno.
  rewrite tryExtractPageMetadata_run.
  destruct (checkIsFetchableURL s f σ) as [[u|] σg] eqn:Hg; [done|].
  apply checkIsFetchableURL_frame in Hg as (? & ? & ? & ? & ? & ? & _).
  by repeat split.
Qed.

(** X5. When the candidate passes the gate and the fetch fails, the call
    gives [null] after that one fetch, and nothing is cached: the cache and
    the Thing objects are as before. *)
Theorem fetch_failure_caches_nothing s f σ h og :
  wf σ →
  parseURL s = Some (h, og) →
  f (mkURL (next_url σ) h og) = Some true →
  fst (fetchAsDocument (mkURL (next_url σ) h og) (net σ)) = None →
  fst (tryExtractPageMetadata s f σ) = None ∧
  trace (snd (tryExtractPageMetadata s f σ))
    = trace σ ++ [EvFetch (mkURL (next_url σ) h og)] ∧
  pageMetadataCache (snd (tryExtractPageMetadata s f σ)) = pageMetadataCache σ ∧
  heap (snd (tryExtractPageMetadata s f σ)) = heap σ.
Proof.
  intros Hwf Hp Hf Hfail.
  assert (Hg : checkIsFetchableURL s f σ =
            (Some (mkURL (next_url σ) h og), set_next_url (S (next_url σ)) σ)).
  { rewrite checkIsFetchableURL_run, Hp. by rewrite bool_decide_eq_true_2. }
  destruct (tryExtractPageMetadata_fetches _ _ _ _ _ Hwf Hg) as [Hnone Ht].
  split; [|split; [done|]].
  - apply tryExtractPageMetadata_None_iff; [done|].
    right. exists h, og. auto.
  - rewrite tryExtractPageMetadata_run, Hg.
    rewrite extractForURL_miss by done. simpl.
    destruct (fetchAsDocument _ (net σ)) as [[doc|] n]; [done|]. done.
Qed.

Lemma resolved_metadata_is_new_aux s f σ thing σ1 :
  wf σ →
  tryExtractPageMetadata s f σ = (Some thing, σ1) →
  heap σ !! thing = None ∧
  heap σ ⊆ heap σ1 ∧
  pageMetadataCache σ ⊆ pageMetadataCache σ1 ∧
  ∃ u doc,
    url_id u = next_url σ ∧
    parseURL s = Some (href u, origin u) ∧
    fst (fetchAsDocument u (net σ)) = Some doc ∧
    heap σ1 !! thing = Some (extractPageMetadata doc u) ∧
    pageMetadataCache σ1 !! url_id u = Some thing ∧
    trace σ1 = trace σ ++ [EvFetch u].
Proof.
  intros Hwf Hx.
  destruct (tryExtractPageMetadata_Some _ _ _ _ _ Hwf Hx)
    as (u & doc & n & Hg & Hf & Hnew & Hh & Hc).
  destruct (tryExtractPageMetadata_fetches _ _ _ _ _ Hwf Hg) as [Hnone Ht].
  rewrite Hx in Ht. simpl in Hnone, Ht.
  apply checkIsFetchableURL_Some in Hg as (Hid & Hp & _ & _).
  split; [done|]. split; [rewrite Hh; by apply insert_subseteq|].
  split; [rewrite Hc; by apply insert_subseteq|].
  exists u, doc. rewrite Hf, Hh, Hc, !lookup_insert_eq. done.
Qed.

(** X6. In a well-formed state a metadata that is obtained is a new
    object, with the fields extracted from the document that has just been
    fetched; it is cached under the new URL instance, and every cache entry
    and every Thing object that was there is still there, unchanged. *)
Theorem resolved_metadata_is_new s f σ thing σ1 :
  wf σ →
  tryExtractPageMetadata s f σ = (Some thing, σ1) →
  heap σ !! thing = None ∧
  heap σ ⊆ heap σ1 ∧
  pageMetadataCache σ ⊆ pageMetadataCache σ1 ∧
  ∃ u doc,
    url_id u = next_url σ ∧
    parseURL s = Some (href u, origin u) ∧
    fst (fetchAsDocument u (net σ)) = Some doc ∧
    heap σ1 !! thing = Some (extractPageMetadata doc u) ∧
    pageMetadataCache σ1 !! url_id u = Some thing ∧
    trace σ1 = trace σ ++ [EvFetch u].
Proof. apply resolved_metadata_is_new_aux. Qed.

(** ** Saving and finding page metadata *)

(** X7. [savePageMetadata] overwrites: when the URL instance has a cache
    entry already, the entry is replaced by the new Thing, which is another
    object; the Thing that was cached is still on the heap with its fields,
    and the entries of the other URL instances are as before. *)
Theorem savePageMetadata_overwrites doc u σ old (o : Fields) :
  pageMetadataCache σ !! url_id u = Some old →
  heap σ !! old = Some o →
  ∃ thing σ',
    savePageMetadata doc u σ = (thing, σ') ∧
    thing ≠ old ∧
    pageMetadataCache σ' !! url_id u = Some thing ∧
    heap σ' !! thing = Some (extractPageMetadata doc u) ∧
    heap σ' !! old = Some o ∧
    ∀ k, k ≠ url_id u → pageMetadataCache σ' !! k = pageMetadataCache σ !! k.
Proof.
  intros Hc Ho. rewrite savePageMetadata_run.
  eexists _, _. split; [reflexivity|]. simpl.
  assert (Hne : fresh (dom (heap σ)) ≠ old).
  { intros Heq. pose proof (fresh_heap_None σ) as Hn. rewrite Heq in Hn. congruence. }
  split; [done|]. rewrite !lookup_insert_eq. split; [done|]. split; [done|].
  split; [by rewrite lookup_insert_ne|].
  intros k Hk. by rewrite lookup_insert_ne.
Qed.

(** X8. Saving and finding: after [savePageMetadata] for a URL instance,
    the resolution of this same instance is answered from the cache, with
    the Thing that was saved and the fields that were extracted, with no
    fetch and no change of state. *)
Theorem save_then_lookup doc u σ :
  extractForURL u (snd (savePageMetadata doc u σ))
    = (Some (fst (savePageMetadata doc u σ)), snd (savePageMetadata doc u σ)) ∧
  heap (snd (savePageMetadata doc u σ)) !! fst (savePageMetadata doc u σ)
    = Some (extractPageMetadata doc u).
Proof.
  rewrite savePageMetadata_run. simpl. split.
  - apply extractForURL_hit. simpl. apply lookup_insert_eq.
  - apply lookup_insert_eq.
Qed.

(** ** Loading artifacts *)

(** X9. [loadArtifactsFromHtmlUrl] does not look into the cache: in every
    state, also when the URL instance is a key of the cache, the call
    fetches; what follows the fetch in the trace are the additions to the
    store of the artifacts returned, in their order, and the store is the
    old one with these at its end. *)
Theorem loadArtifactsFromHtmlUrl_always_fetches u σ :
  trace (snd (loadArtifactsFromHtmlUrl u σ))
    = trace σ ++ [EvFetch u] ++ map EvAddArtifact (fst (loadArtifactsFromHtmlUrl u σ)) ∧
  artstore (snd (loadArtifactsFromHtmlUrl u σ))
    = artstore σ ++ fst (loadArtifactsFromHtmlUrl u σ).
Proof.
  destruct (fetchAsDocument u (net σ)) as [[doc|] n] eqn:Hf.
  - destruct (loadArtifactsFromHtmlUrl_fetched _ _ _ _ Hf)
      as (σ' & -> & Hs & _ & _ & _ & Ht). done.
  - destruct (loadArtifactsFromHtmlUrl_null u σ)
      as (σ' & -> & _ & Hs & _ & Ht); [by rewrite Hf|].
    simpl. by rewrite app_nil_r.
Qed.

(** X10. After [loadArtifactsFromHtmlUrl] has fetched the document of a URL
    instance, the metadata of the document is cached under this instance:
    it is a new object with the extracted fields, and a resolution of this
    same instance returns it without a fetch. *)
Theorem load_then_lookup_hits u σ doc :
  fst (fetchAsDocument u (net σ)) = Some doc →
  ∃ thing,
    heap σ !! thing = None ∧
    heap (snd (loadArtifactsFromHtmlUrl u σ)) !! thing
      = Some (extractPageMetadata doc u) ∧
    extractForURL u (snd (loadArtifactsFromHtmlUrl u σ))
      = (Some thing, snd (loadArtifactsFromHtmlUrl u σ)).
Proof.
  intros Hf. exists (fresh (dom (heap σ))).
  split; [apply fresh_heap_None|].
  unfold loadArtifactsFromHtmlUrl, bind, fetch.
  destruct (fetchAsDocument u (net σ)) as [d n]. simpl in Hf. subst d.
  rewrite savePageMetadata_run, saveArtifacts_run. simpl. split.
  - apply lookup_insert_eq.
  - apply extractForURL_hit. simpl. apply lookup_insert_eq.
Qed.

(** X11. [loadArtifactsFromJsonldUrl] returns the artifacts of the loader
    and adds each of them to the store, in their order; the page metadata
    cache and the Thing objects are not touched and the document fetcher is
    not called. *)
Theorem loadArtifactsFromJsonldUrl_adds_all u σ :
  fst (loadArtifactsFromJsonldUrl u σ) = fst (fromJsonUrl u (net σ)) ∧
  artstore (snd (loadArtifactsFromJsonldUrl u σ))
    = artstore σ ++ fst (fromJsonUrl u (net σ)) ∧
  trace (snd (loadArtifactsFromJsonldUrl u σ))
    = trace σ ++ map EvAddArtifact (fst (fromJsonUrl u (net σ))) ∧
  pageMetadataCache (snd (loadArtifactsFromJsonldUrl u σ)) = pageMetadataCache σ ∧
  heap (snd (loadArtifactsFromJsonldUrl u σ)) = heap σ.
Proof.
  unfold loadArtifactsFromJsonldUrl, bind.
  destruct (fromJsonUrl u (net σ)) as [arts n]. simpl.
  rewrite saveArtifacts_run. done.
Qed.


(** ** The enrichment loop *)

Lemma enriched_from_refl result : enriched_from result result.
Proof. split; auto. Qed.

Lemma enriched_from_trans (r1 r2 r3 : NearbyResult) :
  enriched_from r1 r2 → enriched_from r2 r3 → enriched_from r1 r3.
Proof.
  intros [Ha [Hc|[Hs (t & Hc)]]] [Ha' [Hc'|[Hs' (t' & Hc')]]];
    (split; [congruence|]).
  - left. congruence.
  - right. split; [congruence|]. eauto.
  - right. split; [done|]. exists t. congruence.
  - right. split; [done|]. eauto.
Qed.

Lemma results_kept_same rs σ σ' : nearby σ' = nearby σ → results_kept rs σ σ'.
Proof.
  intros Hn r0. rewrite Hn. destruct (nearby σ !! r0) as [result|]; [|done].
  exists result. split; [done|]. split; [apply enriched_from_refl|done].
Qed.

Lemma results_kept_insert r result thing σ h b :
  nearby σ !! r = Some result →
  is_Some (content result) →
  results_kept [r] σ
    (mkState (artstore σ) (artdealer σ) (pageMetadataCache σ) h (net σ) (next_url σ)
       (trace σ)
       (<[r := mkNearbyResult (artifact result) (Some (CThing thing))]> (nearby σ)) b).
Proof.
  intros Hr Hc r0. simpl. destruct (decide (r0 = r)) as [->|Hne].
  - rewrite Hr, lookup_insert_eq. eexists. split; [done|]. split.
    + split; [done|]. right. split; [done|]. by exists thing.
    + intros Hn. exfalso. apply Hn. by apply list_elem_of_singleton.
  - rewrite lookup_insert_ne by done.
    destruct (nearby σ !! r0) as [res|]; [|done].
    exists res. split; [done|]. split; [apply enriched_from_refl|done].
Qed.

Lemma results_kept_nearby rs σ σ1 σ' :
  nearby σ1 = nearby σ → results_kept rs σ1 σ' → results_kept rs σ σ'.
Proof. intros Hn Hk r0. specialize (Hk r0). by rewrite Hn in Hk. Qed.

Lemma Enriched_results_kept f r σ out σ' :
  Enriched f r σ out σ' → results_kept [r] σ σ'.
Proof.
  destruct 1 as [ |result s thing σ1 Hr Hc Hs Hx|result s σ1 Hr Hc Hs Hx| | |
                 |result l σ1 Hr Hc Hu Hcan Hn Hx|result l thing σ1 Hr Hc Hu Hcan Hn Hx Ht
                 |result l thing σ1 Hr Hc Hu Hcan Hn Hx Ht];
    try (by apply results_kept_same);
    pose proof (tryExtractPageMetadata_nearby _ _ _ _ _ Hx) as Hnb;
    try (by apply results_kept_same).
  - apply (results_kept_nearby _ _ σ1); [done|]. unfold set_nearby.
    apply results_kept_insert; [congruence|rewrite Hc; eauto].
  - apply (results_kept_nearby _ _ σ1); [done|]. unfold after_merge.
    apply results_kept_insert; [congruence|rewrite Hc; eauto].
Qed.

Lemma results_kept_trans r rest σ1 σ2 σ3 :
  results_kept [r] σ1 σ2 → results_kept rest σ2 σ3 → results_kept (r :: rest) σ1 σ3.
Proof.
  intros H1 H2 r0. specialize (H1 r0). specialize (H2 r0).
  destruct (nearby σ1 !! r0) as [res|]; [|by rewrite H1 in H2].
  destruct H1 as (res2 & Hl2 & He2 & Hsame2). rewrite Hl2 in H2.
  destruct H2 as (res3 & Hl3 & He3 & Hsame3).
  exists res3. split; [done|]. split; [by eapply enriched_from_trans|].
  intros Hn. rewrite not_elem_of_cons in Hn. destruct Hn as [Hne Hn].
  rewrite (Hsame3 Hn). apply Hsame2. by rewrite list_elem_of_singleton.
Qed.

Lemma results_kept_weaken r rest σ σ' :
  results_kept [r] σ σ' → results_kept (r :: rest) σ σ'.
Proof.
  intros Hk r0. specialize (Hk r0).
  destruct (nearby σ !! r0) as [res|]; [|done].
  destruct Hk as (res' & ? & ? & Hsame). exists res'. split; [done|]. split; [done|].
  intros Hn. apply Hsame. rewrite list_elem_of_singleton.
  rewrite not_elem_of_cons in Hn. by destruct Hn.
Qed.

Lemma EnrichedAll_results_kept f rs σ out σ' :
  EnrichedAll f rs σ out σ' → results_kept rs σ σ'.
Proof.
  induction 1 as [σ|r rest σ σ1 out σ2 Hr _ IH|r rest σ e σ1 Hr].
  - by apply results_kept_same.
  - eapply results_kept_trans; [by eapply Enriched_results_kept|done].
  - eapply results_kept_weaken. by eapply Enriched_results_kept.
Qed.

(** X12. [attemptEnrichContentWithPageMetadata] keeps the results: when it
    returns, it returns the array it was given; whether it returns or
    throws, every result object is still there with the artifact it had and
    with the content it had or, when it had one, a Thing; the results that
    are not in the array are as they were, and no result has appeared. *)
Theorem enrichment_keeps_the_list (results : list loc) f σ :
  (∀ returned, fst (attemptEnrichContentWithPageMetadata results f σ) = Returned returned →
     returned = results) ∧
  (∀ r result, nearby σ !! r = Some result →
     ∃ result',
       nearby (snd (attemptEnrichContentWithPageMetadata results f σ)) !! r
         = Some result' ∧
       artifact result' = artifact result ∧
       (content result' = content result ∨
        (is_Some (content result) ∧ ∃ thing, content result' = Some (CThing thing))) ∧
       (r ∉ results → result' = result)) ∧
  (∀ r, nearby σ !! r = None →
     nearby (snd (attemptEnrichContentWithPageMetadata results f σ)) !! r = None).
Proof.
  destruct (attemptEnrich_EnrichedAll results f σ) as (pass & Hall & Hout).
  apply EnrichedAll_results_kept in Hall.
  split; [|split].
  - intros returned Hret. destruct pass; rewrite Hret in Hout; congruence.
  - intros r result Hr. specialize (Hall r). rewrite Hr in Hall.
    destruct Hall as (result' & ? & [? ?] & ?). by exists result'.
  - intros r Hr. specialize (Hall r). by rewrite Hr in Hall.
Qed.

Lemma fetches_snoc (t : list Event) u : fetches (t ++ [EvFetch u]) = S (fetches t).
Proof. unfold fetches. rewrite List.filter_app, length_app. simpl. lia. Qed.

(** One call of [tryExtractPageMetadata], at most one fetch. *)
Lemma tryExtractPageMetadata_trace s f σ res σ1 :
  tryExtractPageMetadata s f σ = (res, σ1) →
  trace σ1 = trace σ ∨ ∃ u, trace σ1 = trace σ ++ [EvFetch u].
Proof.
  rewrite tryExtractPageMetadata_run.
  destruct (checkIsFetchableURL s f σ) as [[u|] σg] eqn:Hg;
    apply checkIsFetchableURL_frame in Hg as (_ & _ & _ & _ & _ & Ht & _).
  - destruct (pageMetadataCache σg !! url_id u) as [t|] eqn:Hc.
    + rewrite (extractForURL_hit _ _ _ Hc). intros [= _ <-]. by left.
    + rewrite (extractForURL_miss _ _ Hc).
      destruct (fetchAsDocument u (net σg)) as [[doc|] n]; simpl;
        intros [= _ <-]; right; exists u; simpl; by rewrite Ht.
  - intros [= _ <-]. by left.
Qed.

Lemma Enriched_fetches f r σ out σ' :
  Enriched f r σ out σ' → fetches (trace σ') ≤ S (fetches (trace σ)).
Proof.
  assert (Hstep : ∀ s res σ1, tryExtractPageMetadata s f σ = (res, σ1) →
                    fetches (trace σ1) ≤ S (fetches (trace σ))).
  { intros s res σ1 [->|[u ->]]%tryExtractPageMetadata_trace;
      [lia|rewrite fetches_snoc; lia]. }
  destruct 1; try lia; simpl; by eapply Hstep.
Qed.

(** X13. The enrichment of a list fetches at most once for each result. *)
Theorem enrichment_fetches_at_most_once_each (results : list loc) f σ :
  fetches (trace (snd (attemptEnrichContentWithPageMetadata results f σ)))
    ≤ fetches (trace σ) + length results.
Proof.
  destruct (attemptEnrich_EnrichedAll results f σ) as (pass & Hall & _).
  induction Hall as [σ|r rest σ σ1 out σ2 Hr _ IH|r rest σ e σ1 Hr]; simpl.
  - lia.
  - apply Enriched_fetches in Hr. lia.
  - apply Enriched_fetches in Hr. lia.
Qed.

Lemma enrichResult_settled f r σ :
  settled σ r = true → enrichResult f r σ = (Returned tt, σ).
Proof.
  unfold settled. destruct (nearby σ !! r) as [result|] eqn:Hr.
  2:{ intros _. apply enrichResult_skip. by left. }
  destruct (content result) as [[s|l]|] eqn:Hc.
  - intros ->%String.eqb_eq. apply enrichResult_skip. eauto.
  - rewrite (enrichResult_thing _ _ _ _ _ Hr Hc).
    destruct (truthy _); [|done]. simpl.
    intros [-> ->]%andb_true_iff. done.
  - intros _. apply enrichResult_skip. eauto.
Qed.

(** X14. Results that need nothing are passed over: when every result of
    the array has no content, the empty string, or a Thing that has no
    truthy [url], or that answers the call of [hasOwnProperty] and has a
    [name] of its own, the array is returned, nothing is fetched and the
    state is as before. *)
Theorem settled_results_untouched (results : list loc) f σ :
  forallb (settled σ) results = true →
  attemptEnrichContentWithPageMetadata results f σ = (Returned results, σ).
Proof.
  induction results as [|r rest IH]; [done|].
  intros [Hr Hrest]%andb_true_iff.
  rewrite attemptEnrich_cons, (enrichResult_settled _ _ _ Hr).
  by rewrite (IH Hrest).
Qed.

Lemma Enriched_grows f r σ out σ' :
  wf σ →
  Enriched f r σ out σ' →
  wf σ' ∧ heap σ ⊆ heap σ' ∧ pageMetadataCache σ ⊆ pageMetadataCache σ'.
Proof.
  intros Hwf Hr.
  assert (Hstep : ∀ s res σ1, tryExtractPageMetadata s f σ = (res, σ1) →
            wf σ1 ∧ heap σ ⊆ heap σ1 ∧ pageMetadataCache σ ⊆ pageMetadataCache σ1).
  { intros s [thing|] σ1 Hx.
    - destruct (resolved_metadata_is_new_aux s f σ thing σ1 Hwf Hx) as (_ & ? & ? & _).
      apply tryExtractPageMetadata_frame in Hx as (_ & _ & _ & _ & Hw & _). auto.
    - apply tryExtractPageMetadata_frame in Hx as (_ & _ & Hh & _ & Hw & Hc & _).
      rewrite Hc. auto. }
  destruct Hr as [ |result s thing σ1 Hr Hc Hs Hx|result s σ1 Hr Hc Hs Hx| | |
                  |result l σ1 Hr Hc Hu Hcan Hn Hx|result l thing σ1 Hr Hc Hu Hcan Hn Hx Ht
                  |result l thing σ1 Hr Hc Hu Hcan Hn Hx Ht];
    try done; try (by eapply Hstep).
  - destruct (Hstep _ _ _ Hx) as (Hw1 & Hh1 & Hc1).
    split; [exact Hw1|]. by split.
  - destruct (Hstep _ _ _ Hx) as (Hw1 & Hh1 & Hc1).
    destruct (resolved_metadata_is_new_aux _ f σ thing σ1 Hwf Hx) as (Hnew & _).
    split; [exact Hw1|]. split; [|exact Hc1]. simpl.
    by apply insert_subseteq_r.
Qed.

(** X15. In a well-formed state the enrichment of a list changes no object
    and no cache entry that was there: every Thing on the heap before the
    call is there after it with the same fields (the targets of
    [Object.assign] are objects made during the call), and every cache entry
    is kept. *)
Theorem enrichment_keeps_existing_objects (results : list loc) f σ :
  wf σ →
  heap σ ⊆ heap (snd (attemptEnrichContentWithPageMetadata results f σ)) ∧
  pageMetadataCache σ
    ⊆ pageMetadataCache (snd (attemptEnrichContentWithPageMetadata results f σ)).
Proof.
  intros Hwf.
  destruct (attemptEnrich_EnrichedAll results f σ) as (pass & Hall & _).
  induction Hall as [σ|r rest σ σ1 out σ2 Hr _ IH|r rest σ e σ1 Hr].
  - done.
  - destruct (Enriched_grows _ _ _ _ _ Hwf Hr) as (Hwf1 & Hh & Hc).
    destruct (IH Hwf1) as [Hh' Hc']. split; etrans; eauto.
  - by destruct (Enriched_grows _ _ _ _ _ Hwf Hr) as (_ & Hh & Hc).
Qed.

Lemma unchanged_refl σ : unchanged σ σ.
Proof. by repeat split. Qed.

Lemma unchanged_trans σ1 σ2 σ3 : unchanged σ1 σ2 → unchanged σ2 σ3 → unchanged σ1 σ3.
Proof.
  intros (? & ? & ? & ? & ? & ? & ? & ?) (? & ? & ? & ? & ? & ? & ? & ?).
  repeat split; congruence.
Qed.

Lemma unchanged_harmless σ σ' r : unchanged σ σ' → harmless σ' r = harmless σ r.
Proof.
  intros (_ & _ & _ & Hh & _ & _ & Hn & Hb).
  unfold harmless, can_call_hasOwnProperty. by rewrite Hh, Hn, Hb.
Qed.

(** The gate leaves everything as it is. *)
Lemma checkIsFetchableURL_unchanged s f σ :
  unchanged σ (snd (checkIsFetchableURL s f σ)).
Proof.
  rewrite checkIsFetchableURL_run.
  destruct (parseURL s) as [[h og]|]; simpl; by repeat split.
Qed.

(** A call that gives [null] without a fetch of a document leaves
    everything as it is but the trace and the network. *)
Lemma tryExtractPageMetadata_denied s f σ :
  (∀ u, f u ≠ Some true) →
  fst (tryExtractPageMetadata s f σ) = None ∧
  unchanged σ (snd (tryExtractPageMetadata s f σ)).
Proof.
  intros Hdeny. rewrite tryExtractPageMetadata_run.
  pose proof (checkIsFetchableURL_unchanged s f σ) as Hu.
  destruct (checkIsFetchableURL s f σ) as [[u|] σg] eqn:Hg; [|done].
  apply checkIsFetchableURL_Some in Hg as (_ & _ & Hf & _). by apply Hdeny in Hf.
Qed.

Lemma enrichResult_denied f r σ :
  (∀ u, f u ≠ Some true) →
  fst (enrichResult f r σ) = (if harmless σ r then Returned tt else Threw TypeError) ∧
  unchanged σ (snd (enrichResult f r σ)).
Proof.
  intros Hdeny. unfold harmless.
  destruct (nearby σ !! r) as [result|] eqn:Hr.
  2:{ rewrite enrichResult_skip by auto. split; [done|apply unchanged_refl]. }
  destruct (content result) as [[s|l]|] eqn:Hc.
  - destruct (decide (s = "")) as [->|Hs].
    { rewrite enrichResult_skip by eauto. split; [done|apply unchanged_refl]. }
    rewrite (enrichResult_string _ _ _ _ _ Hr Hc Hs). simpl.
    destruct (tryExtractPageMetadata_denied s f σ Hdeny) as [-> Hu]. done.
  - rewrite (enrichResult_thing _ _ _ _ _ Hr Hc).
    destruct (truthy _); simpl; [|split; [done|apply unchanged_refl]].
    destruct (can_call_hasOwnProperty σ l); [|split; [done|apply unchanged_refl]].
    destruct (hasOwnProperty _ _); [split; [done|apply unchanged_refl]|].
    match goal with
    | |- context [tryExtractPageMetadata ?s f σ] =>
        destruct (tryExtractPageMetadata_denied s f σ Hdeny) as [Hnone Hu];
        destruct (tryExtractPageMetadata s f σ) as [res σ1]
    end. simpl in Hnone, Hu. by subst res.
  - rewrite enrichResult_skip by eauto. split; [done|apply unchanged_refl].
Qed.

(** X16. Under a policy that allows no URL (a callback that never returns
    true, or throws; an empty array of origins) the enrichment fetches
    nothing and changes nothing: the results, the Thing objects, the store,
    the cache, the network and the trace are as before, whether the call
    returns or throws.  It returns the array when no result is a Thing with
    a truthy [url] on which [hasOwnProperty] cannot be called, and throws a
    [TypeError] otherwise. *)
Theorem denied_policy_enriches_nothing (results : list loc) f σ :
  (∀ u, f u ≠ Some true) →
  unchanged σ (snd (attemptEnrichContentWithPageMetadata results f σ)) ∧
  fst (attemptEnrichContentWithPageMetadata results f σ)
    = if forallb (harmless σ) results then Returned results else Threw TypeError.
Proof.
  intros Hdeny.
  assert (Hgen : ∀ σ0, unchanged σ σ0 →
    unchanged σ (snd (attemptEnrichContentWithPageMetadata results f σ0)) ∧
    fst (attemptEnrichContentWithPageMetadata results f σ0)
      = if forallb (harmless σ) results then Returned results else Threw TypeError).
  { induction results as [|r rest IH]; intros σ0 Hu0; [done|].
    rewrite attemptEnrich_cons. simpl.
    destruct (enrichResult_denied f r σ0 Hdeny) as [Hout Hu1].
    rewrite (unchanged_harmless _ _ _ Hu0) in Hout.
    destruct (enrichResult f r σ0) as [out σ1]. simpl in Hout, Hu1. subst out.
    pose proof (unchanged_trans _ _ _ Hu0 Hu1) as Hu.
    destruct (harmless σ r); simpl; [|done].
    destruct (IH σ1 Hu) as [Hu2 Hout2].
    destruct (attemptEnrichContentWithPageMetadata rest f σ1) as [[l|e] σ2];
      simpl in *; (split; [done|]);
      destruct (forallb (harmless σ) rest); congruence. }
  apply Hgen, unchanged_refl.
Qed.

(** A call that gives [null] leaves the Thing objects, their prototypes,
    the cache and the results as they are. *)
Lemma tryExtractPageMetadata_None_keeps s f σ σ1 :
  tryExtractPageMetadata s f σ = (None, σ1) →
  heap σ1 = heap σ ∧ pageMetadataCache σ1 = pageMetadataCache σ ∧
  nearby σ1 = nearby σ ∧ bare σ1 = bare σ.
Proof.
  intros Hx.
  pose proof (tryExtractPageMetadata_nearby _ _ _ _ _ Hx) as Hn.
  pose proof Hx as Hfr.
  apply tryExtractPageMetadata_frame in Hfr as (_ & _ & _ & _ & _ & Hc & Hh).
  split; [done|]. split; [done|]. split; [done|].
  revert Hx. rewrite tryExtractPageMetadata_run, checkIsFetchableURL_run.
  destruct (parseURL s) as [[h og]|]; [|by intros [= <-]].
  case_bool_decide; [|by intros [= <-]].
  set (u := mkURL (next_url σ) h og). set (σg := set_next_url (S (next_url σ)) σ).
  destruct (pageMetadataCache σg !! url_id u) as [t|] eqn:Hk.
  - by rewrite (extractForURL_hit _ _ _ Hk).
  - rewrite (extractForURL_miss _ _ Hk).
    destruct (fetchAsDocument u (net σg)) as [[doc|] n]; [done|].
    by intros [= <-].
Qed.

(** X17. For a Thing content on which [hasOwnProperty] can be called and
    for which [tryExtractPageMetadata] on its [url] yields [null], the step
    ends without an error, the result object is as it was, and neither the
    Thing objects, nor their prototypes, nor the cache are modified. *)
Theorem partial_thing_without_metadata f r result l (o : Fields) σ :
  nearby σ !! r = Some result →
  content result = Some (CThing l) →
  heap σ !! l = Some o →
  l ∉ bare σ →
  o !! "hasOwnProperty" = None →
  fst (tryExtractPageMetadata (js_to_string (get_prop o "url")) f σ) = None →
  fst (enrichResult f r σ) = Returned tt ∧
  nearby (snd (enrichResult f r σ)) = nearby σ ∧
  heap (snd (enrichResult f r σ)) = heap σ ∧
  bare (snd (enrichResult f r σ)) = bare σ ∧
  pageMetadataCache (snd (enrichResult f r σ)) = pageMetadataCache σ.
Proof.
  intros Hr Hc Hl Hb Hh Hnone.
  rewrite (enrichResult_thing _ _ _ _ _ Hr Hc), Hl. simpl.
  rewrite (can_call_hasOwnProperty_true _ _ _ Hl Hb Hh).
  destruct (truthy _); [|done].
  destruct (hasOwnProperty _ _); [done|].
  destruct (tryExtractPageMetadata _ f σ) as [res σ1] eqn:Hx.
  simpl in Hnone. subst res. simpl.
  by apply tryExtractPageMetadata_None_keeps in Hx as (? & ? & ? & ?).
Qed.

(** ** The events *)

(** Asking the dealer, then enriching what it has found. *)
Lemma ask_then_enrich q f σ :
  forwards_and_enriches q f σ
    (bindE (lift (ask_dealer q)) (fun results =>
       bindE (attemptEnrichContentWithPageMetadata (found results) f) (fun found' =>
         retE (mkDelta found' (lost results)))) σ).
Proof.
  pose proof (ask_dealer_run q σ) as (Ht1 & Hs1 & _).
  unfold bindE at 1, lift at 1. unfold forwards_and_enriches.
  destruct (ask_dealer q σ) as [results σ1]. simpl in *.
  rewrite enrich_found_run. simpl.
  destruct (attemptEnrich_EnrichedAll (found results) f σ1) as (pass & Hall & Hout).
  pose proof (EnrichedAll_enriches _ _ _ _ _ Hall) as (Hs2 & _ & (evs & Ht2 & Hevs) & _).
  split; [congruence|]. split.
  { exists evs. split; [|done]. by rewrite Ht2, Ht1, <- app_assoc. }
  exists pass. split; [done|].
  destruct pass as [[]|e]; rewrite Hout; [|done]. by destruct results.
Qed.

(** X18. [updateGeolocation] and [imageFound] do not index anything: the
    store is as it was, the dealer is asked first, with that store, and
    what follows are the fetches of the enrichment.  The results the dealer
    has found are enriched in order; when this ends without an error the
    delta returned is the dealer's, and when it throws the method throws. *)
Theorem geolocation_and_image_forward_and_enrich
    (coords : GeoCoordinates) (detectedImage : DetectedImage)
    (policy : option (ShouldFetchArtifactsFromCallback + list string)) σ :
  forwards_and_enriches (QUpdateGeolocation coords) (normalizeShouldFetchFn policy) σ
    (updateGeolocation coords policy σ) ∧
  forwards_and_enriches (QImageFound detectedImage) (normalizeShouldFetchFn policy) σ
    (imageFound detectedImage policy σ).
Proof.
  split; apply ask_then_enrich.
Qed.

(** X19. In [markerFound], when [marker.value] does not pass the gate (it
    is no absolute URL, or the policy does not allow it), nothing is loaded:
    the gate leaves everything as it is, no fetch and no addition to the
    store come before the dealer is asked, and from there the method goes on
    as the other events do. *)
Theorem markerFound_without_indexing (marker : Marker)
    (policy : option (ShouldFetchArtifactsFromCallback + list string)) σ :
  fst (checkIsFetchableURL (marker_value marker) (normalizeShouldFetchFn policy) σ)
    = None →
  unchanged σ
    (snd (checkIsFetchableURL (marker_value marker) (normalizeShouldFetchFn policy) σ)) ∧
  forwards_and_enriches (QMarkerFound marker) (normalizeShouldFetchFn policy)
    (snd (checkIsFetchableURL (marker_value marker) (normalizeShouldFetchFn policy) σ))
    (markerFound marker policy σ).
Proof.
  intros Hg. split; [apply checkIsFetchableURL_unchanged|].
  unfold markerFound. cbv zeta. unfold bindE at 1, lift at 1.
  destruct (checkIsFetchableURL _ _ σ) as [res σg]. simpl in *. subst res.
  unfold bindE at 1, lift at 1, ret at 1.
  apply ask_then_enrich.
Qed.

(** ** What an enriched result is *)


(** X21. A merge with a page that has a [name] settles the result, when
    the merge leaves the Thing obtained with its prototype and with no own
    [hasOwnProperty]: the merged Thing has the [name] of the page, so
    another pass of the enrichment over the result, under any policy, ends
    without an error, does nothing and fetches nothing. *)
Theorem merged_result_is_settled f f' r result l (o : Fields) σ thing σ1 :
  nearby σ !! r = Some result →
  content result = Some (CThing l) →
  heap σ !! l = Some o →
  truthy (get_prop o "url") = true →
  l ∉ bare σ →
  o !! "hasOwnProperty" = None →
  o !! "name" = None →
  o !! "__proto__" ≠ Some VNull →
  tryExtractPageMetadata (js_to_string (get_prop o "url")) f σ = (Some thing, σ1) →
  get_prop (default ∅ (heap σ1 !! thing)) "@type" = get_prop o "@type" →
  thing ∉ bare σ1 →
  default ∅ (heap σ1 !! thing) !! "hasOwnProperty" = None →
  is_Some (default ∅ (heap σ1 !! thing) !! "name") →
  default ∅ (heap (snd (enrichResult f r σ)) !! thing) !! "name"
    = default ∅ (heap σ1 !! thing) !! "name" ∧
  enrichResult f' r (snd (enrichResult f r σ))
    = (Returned tt, snd (enrichResult f r σ)).
Proof.
  intros Hr Hc Hl Hurl Hb Hh Hname Hproto Hx Hty Hplain Hph Hpn.
  destruct (enrichResult_partial _ _ _ _ _ _ _ _ Hr Hc Hl Hurl Hb Hh Hname Hx)
    as [Hl1 Hrun].
  unfold strict_eq in Hrun. rewrite bool_decide_eq_true_2 in Hrun by done.
  rewrite Hrun. unfold after_merge. simpl.
  rewrite (bool_decide_eq_false_2 _ Hplain), Hl1. simpl.
  set (p := default ∅ (heap σ1 !! thing)) in *.
  assert (Hurl' : truthy (get_prop (assign_fields false p o) "url") = true).
  { assert (Hk : "url" ≠ "__proto__") by discriminate.
    unfold get_prop in *. destruct (o !! "url") as [v|] eqn:Hv; [|done].
    by rewrite (assign_fields_source false p o "url" v Hk Hv). }
  assert (Hbare : bool_decide (p !! "__proto__" = None)
                  && bool_decide (o !! "__proto__" = Some VNull) = false).
  { apply andb_false_iff. right. by apply bool_decide_eq_false. }
  rewrite Hbare, lookup_insert_eq. simpl.
  rewrite (assign_fields_target _ _ _ _ Hname). split; [done|].
  apply enrichResult_settled. unfold settled, can_call_hasOwnProperty. simpl.
  rewrite lookup_insert_eq. simpl. rewrite !lookup_insert_eq. simpl.
  rewrite Hurl', (assign_fields_target _ _ _ _ Hh), Hph. simpl.
  rewrite (bool_decide_eq_false_2 _ Hplain). simpl.
  unfold hasOwnProperty. rewrite (assign_fields_target _ _ _ _ Hname).
  by rewrite bool_decide_eq_true_2.
Qed.

End Coverage.

(** * The properties on the small web *)

Import Web.

(** The candidate of the scenario that is no URL. *)
Example gate_not_a_url f σ :
  checkIsFetchableURL "not a url" f σ = (None, σ).
Proof. reflexivity. Qed.

(** A result whose content is that string is left as it is. *)
Example enrich_not_a_url f :
  let σ :=
    set_nearby {[ 1%positive := mkNearbyResult (e1, CStr e1) (Some (CStr "not a url")) ]}
               (start net_launch) in
  enrichResult f 1 σ = (Returned tt, σ).
Proof. reflexivity. Qed.

(** The event whose page names it: the merged record has the two fields of
    the content and the [name] of the page. *)
Example enrich_event_launch :
  fst (enrichResult allow_all 1 (start net_launch)) = Returned tt ∧
  nearby (snd (enrichResult allow_all 1 (start net_launch))) !! 1%positive
    = Some (mkNearbyResult (e1, CThing 1) (Some (CThing 2))) ∧
  heap (snd (enrichResult allow_all 1 (start net_launch))) !! 2%positive
    = Some ({[ "@type" := VStr "Event"; "url" := VStr e1; "name" := VStr "Launch" ]} : Fields).
Proof. repeat split; vm_compute; reflexivity. Qed.

(** The same content when the page is about a place: nothing is merged. *)
Example enrich_event_place :
  fst (enrichResult allow_all 1 (start net_place)) = Returned tt ∧
  nearby (snd (enrichResult allow_all 1 (start net_place))) !! 1%positive
    = Some partial_result ∧
  heap (snd (enrichResult allow_all 1 (start net_place))) !! 1%positive
    = Some partial.
Proof. repeat split; vm_compute; reflexivity. Qed.

(** A content with an own property [hasOwnProperty]: the call at the test
    for [name] is a [TypeError], before anything is fetched. *)
Example enrich_own_hasOwnProperty :
  enrichResult allow_all 1 (start_with partial_hop net_launch)
    = (Threw TypeError, start_with partial_hop net_launch) ∧
  fst (attemptEnrichContentWithPageMetadata [1; 2]%positive allow_all
         (start_with partial_hop net_launch)) = Threw TypeError.
Proof. split; vm_compute; reflexivity. Qed.

(** The same result twice in the array: the first visit fetches the page
    and sets the content to the Thing, which has a [name]; the second visit
    finds that Thing and fetches nothing. *)
Example enrich_same_result_twice :
  fst (attemptEnrichContentWithPageMetadata [2; 2]%positive allow_all (start net_launch))
    = Returned [2; 2]%positive ∧
  fetches (trace (snd (attemptEnrichContentWithPageMetadata [2; 2]%positive allow_all
                         (start net_launch)))) = 1.
Proof. split; vm_compute; reflexivity. Qed.

(** Two calls of [tryExtractPageMetadata] with the same candidate, allowed
    by the policy and fetched with success at each call: each call makes a
    URL instance of its own, so the second call does not find the entry the
    first has cached under the instance 0, and fetches again. *)
Example same_candidate_two_instances :
  fst (tryExtractPageMetadata e1 allow_all (start net_launch)) = Some 2%positive ∧
  pageMetadataCache (resolved net_launch) !! 0 = Some 2%positive ∧
  fst (tryExtractPageMetadata e1 allow_all (resolved net_launch)) = Some 3%positive ∧
  trace (snd (tryExtractPageMetadata e1 allow_all (resolved net_launch)))
    = [EvFetch (mkURL 0 e1 "https://example.com");
       EvFetch (mkURL 1 e1 "https://example.com")].
Proof. repeat split; vm_compute; reflexivity. Qed.

(** Counterexample to C3 as stated.  One URL instance and a fetch
    that fails: the first call fetches and gets [null], nothing is cached,
    and the second call for the same instance fetches again.  Two calls, two
    fetches. *)
Lemma failed_fetch_is_fetched_again :
  fst (extractForURL (mkURL 0 gone example_com) (set_next_url 1 (start net_launch)))
    = None ∧
  fst (extractForURL (mkURL 0 gone example_com)
         (snd (extractForURL (mkURL 0 gone example_com)
                 (set_next_url 1 (start net_launch))))) = None ∧
  trace (snd (extractForURL (mkURL 0 gone example_com)
                (snd (extractForURL (mkURL 0 gone example_com)
                        (set_next_url 1 (start net_launch))))))
    = [EvFetch (mkURL 0 gone example_com); EvFetch (mkURL 0 gone example_com)] ∧
  ¬ (fetches (trace (snd (extractForURL (mkURL 0 gone example_com)
                            (snd (extractForURL (mkURL 0 gone example_com)
                                    (set_next_url 1 (start net_launch)))))))
     ≤ 1 + fetches (trace (set_next_url 1 (start net_launch)))).
Proof.
  split; [vm_compute; reflexivity|]. split; [vm_compute; reflexivity|].
  split; [vm_compute; reflexivity|]. vm_compute. lia.
Qed.

Lemma cached_instance_is_not_fetched_again_witness :
  extractForURL (mkURL 0 e1 example_com)
      (snd (extractForURL (mkURL 0 e1 example_com) (set_next_url 1 (start net_launch))))
    = (Some 2%positive,
       snd (extractForURL (mkURL 0 e1 example_com) (set_next_url 1 (start net_launch)))) ∧
  fetches (trace (snd (extractForURL (mkURL 0 e1 example_com)
                         (snd (extractForURL (mkURL 0 e1 example_com)
                                 (set_next_url 1 (start net_launch)))))))
    ≤ S (fetches (trace (set_next_url 1 (start net_launch)))).
Proof.
  apply (cached_instance_is_not_fetched_again (C := web) (mkURL 0 e1 example_com)
           (set_next_url 1 (start net_launch)) 2
           (snd (extractForURL (mkURL 0 e1 example_com)
                   (set_next_url 1 (start net_launch))))).
  vm_compute. reflexivity.
Defined.



Lemma merge_refused_on_type_mismatch_witness :
  enrichResult allow_all 1 (start net_place) = (Returned tt, resolved net_place) ∧
  nearby (resolved net_place) !! 1%positive = Some partial_result ∧
  heap (resolved net_place) !! 1%positive = Some partial ∧
  1%positive ∉ bare (resolved net_place).
Proof.
  apply (merge_refused_on_type_mismatch (C := web) allow_all 1 partial_result 1 partial
           (start net_place) 2 (resolved net_place));
    try (vm_compute; reflexivity).
  - vm_compute. discriminate.
  - vm_compute. discriminate.
Defined.

Lemma merge_writes_into_cache_entry_witness :
  ∃ u doc σ',
    enrichResult allow_all 1 (start net_launch) = (Returned tt, σ') ∧
    fst (fetchAsDocument u (net (start net_launch))) = Some doc ∧
    heap (resolved net_launch) !! 2%positive = Some (extractPageMetadata doc u) ∧
    pageMetadataCache σ' !! url_id u = Some 2%positive ∧
    nearby σ' !! 1%positive
      = Some (mkNearbyResult (artifact partial_result) (Some (CThing 2))) ∧
    heap σ' !! 2%positive
      = Some (assign_fields false (extractPageMetadata doc u) partial) ∧
    (∀ k v, k ≠ "__proto__" → partial !! k = Some v →
       assign_fields false (extractPageMetadata doc u) partial !! k = Some v) ∧
    (∀ σ'', pageMetadataCache σ'' !! url_id u = pageMetadataCache σ' !! url_id u →
            heap σ'' !! 2%positive = heap σ' !! 2%positive →
            extractForURL u σ'' = (Some 2%positive, σ'') ∧
            fst (deref 2 σ'')
              = assign_fields false (extractPageMetadata doc u) partial).
Proof.
  apply (merge_writes_into_cache_entry (C := web) allow_all 1 partial_result 1 partial
           (start net_launch) 2 (resolved net_launch));
    try (vm_compute; reflexivity).
  - intros k thing H. vm_compute in H. discriminate.
  - vm_compute. discriminate.
Defined.

Lemma enrich_string_content_witness :
  let σ := start net_launch in
  fst (enrichResult allow_all 2 σ) = Returned tt ∧
  (∀ thing, fst (tryExtractPageMetadata e1 allow_all σ) = Some thing →
     nearby (snd (enrichResult allow_all 2 σ)) !! 2%positive
       = Some (mkNearbyResult (artifact string_result) (Some (CThing thing)))) ∧
  (fst (tryExtractPageMetadata e1 allow_all σ) = None →
     nearby (snd (enrichResult allow_all 2 σ)) !! 2%positive = Some string_result) ∧
  (∀ r', r' ≠ 2%positive →
     nearby (snd (enrichResult allow_all 2 σ)) !! r' = nearby σ !! r') ∧
  heap (snd (enrichResult allow_all 2 σ))
    = heap (snd (tryExtractPageMetadata e1 allow_all σ)) ∧
  pageMetadataCache (snd (enrichResult allow_all 2 σ))
    = pageMetadataCache (snd (tryExtractPageMetadata e1 allow_all σ)) ∧
  trace (snd (enrichResult allow_all 2 σ))
    = trace (snd (tryExtractPageMetadata e1 allow_all σ)) ∧
  (wf σ →
     fst (tryExtractPageMetadata e1 allow_all σ) = None ↔
       parseURL e1 = None ∨
       ∃ h og, parseURL e1 = Some (h, og) ∧
         (allow_all (mkURL (next_url σ) h og) ≠ Some true ∨
          fst (fetchAsDocument (mkURL (next_url σ) h og) (net σ)) = None)).
Proof.
  apply (enrich_string_content (C := web) allow_all 2 string_result e1
           (start net_launch)); reflexivity.
Defined.


(** The marker of the scenario from end to end: the page is fetched and its
    artifact added before the dealer is asked, the dealer makes a result for
    the artifact, at location 3, and the enrichment of its string content
    fetches the page once more and sets the content to the Thing obtained. *)
Example markerFound_e1 :
  fst (markerFound marker_e1 None (start net_launch)) = Returned (mkDelta [3%positive] []) ∧
  nearby (snd (markerFound marker_e1 None (start net_launch))) !! 3%positive
    = Some (mkNearbyResult (e1, CStr e1) (Some (CThing 3))) ∧
  trace (snd (markerFound marker_e1 None (start net_launch)))
    = [EvFetch (mkURL 0 e1 "https://example.com");
       EvAddArtifact (e1, CStr e1);
       EvDealer (QMarkerFound marker_e1) [(e1, CStr e1)];
       EvFetch (mkURL 1 e1 "https://example.com")].
Proof. repeat split; vm_compute; reflexivity. Qed.

Lemma cache_keyed_by_instance_witness :
  ∃ thing σ1,
    savePageMetadata (C := web) (mkPage launch []) (mkURL 0 e1 "https://example.com")
        (start net_launch) = (thing, σ1) ∧
    pageMetadataCache σ1 !! 0 = Some thing ∧
    pageMetadataCache σ1 !! 1 = None ∧
    trace (snd (extractForURL (mkURL 1 e1 "https://example.com") σ1))
      = trace σ1 ++ [EvFetch (mkURL 1 e1 "https://example.com")] ∧
    fetches (trace (snd (extractForURL (mkURL 1 e1 "https://example.com") σ1)))
      = S (fetches (trace σ1)).
Proof.
  apply (cache_keyed_by_instance (C := web) (mkURL 0 e1 "https://example.com")
           (mkURL 1 e1 "https://example.com") (mkPage launch []) (start net_launch));
    simpl; [lia|reflexivity|reflexivity].
Defined.

Lemma loadArtifactsFromHtmlUrl_fetch_fails_witness :
  ∃ σ',
    loadArtifactsFromHtmlUrl
        (mkURL 0 "https://example.com/gone" "https://example.com") (start net_launch)
      = ([], σ') ∧
    pageMetadataCache σ' = pageMetadataCache (start net_launch) ∧
    artstore σ' = artstore (start net_launch) ∧
    heap σ' = heap (start net_launch) ∧
    trace σ' = trace (start net_launch)
                 ++ [EvFetch (mkURL 0 "https://example.com/gone" "https://example.com")].
Proof.
  apply (loadArtifactsFromHtmlUrl_fetch_fails (C := web)
           (mkURL 0 "https://example.com/gone" "https://example.com") (start net_launch)).
  vm_compute. reflexivity.
Defined.

Lemma gate_makes_new_instance_witness :
  url_id (mkURL 0 e1 example_com) ≠ url_id (mkURL 1 e1 example_com) ∧
  href (mkURL 0 e1 example_com) = href (mkURL 1 e1 example_com) ∧
  origin (mkURL 0 e1 example_com) = origin (mkURL 1 e1 example_com).
Proof.
  apply (gate_makes_new_instance (C := web) e1 allow_all allow_all
           (start net_launch) (mkURL 0 e1 example_com)
           (set_next_url 1 (start net_launch)) (mkURL 1 e1 example_com)
           (set_next_url 2 (set_next_url 1 (start net_launch))));
    vm_compute; reflexivity.
Defined.

Lemma not_fetchable_no_fetch_witness :
  let σ := start net_launch in
  fst (tryExtractPageMetadata "not a url" allow_all σ) = None ∧
  trace (snd (tryExtractPageMetadata "not a url" allow_all σ)) = trace σ ∧
  net (snd (tryExtractPageMetadata "not a url" allow_all σ)) = net σ ∧
  pageMetadataCache (snd (tryExtractPageMetadata "not a url" allow_all σ))
    = pageMetadataCache σ ∧
  heap (snd (tryExtractPageMetadata "not a url" allow_all σ)) = heap σ.
Proof.
  apply (not_fetchable_no_fetch (C := web) "not a url" allow_all (start net_launch)).
  left. reflexivity.
Defined.

Lemma fetch_failure_caches_nothing_witness :
  let σ := start net_launch in
  fst (tryExtractPageMetadata gone allow_all σ) = None ∧
  trace (snd (tryExtractPageMetadata gone allow_all σ))
    = trace σ ++ [EvFetch (mkURL (next_url σ) gone example_com)] ∧
  pageMetadataCache (snd (tryExtractPageMetadata gone allow_all σ))
    = pageMetadataCache σ ∧
  heap (snd (tryExtractPageMetadata gone allow_all σ)) = heap σ.
Proof.
  apply (fetch_failure_caches_nothing (C := web) gone allow_all (start net_launch)
           gone example_com);
    try (vm_compute; reflexivity).
  intros k thing H. vm_compute in H. discriminate.
Defined.

Lemma resolved_metadata_is_new_witness :
  let σ := start net_launch in
  heap σ !! 2%positive = None ∧
  heap σ ⊆ heap (resolved net_launch) ∧
  pageMetadataCache σ ⊆ pageMetadataCache (resolved net_launch) ∧
  ∃ u doc,
    url_id u = next_url σ ∧
    parseURL e1 = Some (href u, origin u) ∧
    fst (fetchAsDocument u (net σ)) = Some doc ∧
    heap (resolved net_launch) !! 2%positive = Some (extractPageMetadata doc u) ∧
    pageMetadataCache (resolved net_launch) !! url_id u = Some 2%positive ∧
    trace (resolved net_launch) = trace σ ++ [EvFetch u].
Proof.
  apply (resolved_metadata_is_new (C := web) e1 allow_all (start net_launch) 2
           (resolved net_launch)).
  - intros k thing H. vm_compute in H. discriminate.
  - vm_compute. reflexivity.
Defined.

Lemma savePageMetadata_overwrites_witness :
  let u := mkURL 0 e1 example_com in
  let doc := mkPage place [] in
  ∃ thing σ',
    savePageMetadata (C := web) doc u (resolved net_launch) = (thing, σ') ∧
    thing ≠ 2%positive ∧
    pageMetadataCache σ' !! url_id u = Some thing ∧
    heap σ' !! thing = Some (extractPageMetadata doc u) ∧
    heap σ' !! 2%positive = Some launch ∧
    ∀ k, k ≠ url_id u →
         pageMetadataCache σ' !! k = pageMetadataCache (resolved net_launch) !! k.
Proof.
  apply (savePageMetadata_overwrites (C := web) (mkPage place [])
           (mkURL 0 e1 example_com) (resolved net_launch) 2 launch);
    vm_compute; reflexivity.
Defined.

Lemma load_then_lookup_hits_witness :
  let u := mkURL 0 e1 example_com in
  let σ := start net_launch in
  ∃ thing,
    heap σ !! thing = None ∧
    heap (snd (loadArtifactsFromHtmlUrl u σ)) !! thing
      = Some (extractPageMetadata (mkPage launch [(e1, CStr e1)]) u) ∧
    extractForURL u (snd (loadArtifactsFromHtmlUrl u σ))
      = (Some thing, snd (loadArtifactsFromHtmlUrl u σ)).
Proof.
  apply (load_then_lookup_hits (C := web) (mkURL 0 e1 example_com)
           (start net_launch) (mkPage launch [(e1, CStr e1)])).
  vm_compute. reflexivity.
Defined.

(** * The further properties on the small web *)

Lemma settled_results_untouched_witness :
  let σ := set_nearby {[ 1%positive := mkNearbyResult (e1, CStr e1) None;
                         2%positive := mkNearbyResult (e1, CStr "") (Some (CStr ""));
                         3%positive := mkNearbyResult (e1, CThing 2) (Some (CThing 2)) ]}
                      (resolved net_launch) in
  attemptEnrichContentWithPageMetadata [1; 2; 3; 4]%positive allow_all σ
    = (Returned [1; 2; 3; 4]%positive, σ).
Proof.
  apply (settled_results_untouched (C := web) [1; 2; 3; 4]%positive allow_all
           (set_nearby {[ 1%positive := mkNearbyResult (e1, CStr e1) None;
                          2%positive := mkNearbyResult (e1, CStr "") (Some (CStr ""));
                          3%positive := mkNearbyResult (e1, CThing 2) (Some (CThing 2)) ]}
                       (resolved net_launch))).
  vm_compute. reflexivity.
Defined.

Lemma enrichment_keeps_existing_objects_witness :
  let σ := start net_launch in
  heap σ ⊆ heap (snd (attemptEnrichContentWithPageMetadata
                        [1; 2]%positive allow_all σ)) ∧
  pageMetadataCache σ
    ⊆ pageMetadataCache (snd (attemptEnrichContentWithPageMetadata
                                [1; 2]%positive allow_all σ)).
Proof.
  apply (enrichment_keeps_existing_objects (C := web)
           [1; 2]%positive allow_all (start net_launch)).
  intros k thing H. vm_compute in H. discriminate.
Defined.

Lemma denied_policy_enriches_nothing_witness :
  let σ := start net_launch in
  unchanged σ (snd (attemptEnrichContentWithPageMetadata [1; 2]%positive no_origin σ)) ∧
  fst (attemptEnrichContentWithPageMetadata [1; 2]%positive no_origin σ)
    = if forallb (harmless σ) [1; 2]%positive
      then Returned [1; 2]%positive else Threw TypeError.
Proof.
  apply (denied_policy_enriches_nothing (C := web)
           [1; 2]%positive no_origin (start net_launch)).
  intros u H. vm_compute in H. discriminate.
Defined.

Lemma partial_thing_without_metadata_witness :
  let σ := start ∅ in
  fst (enrichResult allow_all 1 σ) = Returned tt ∧
  nearby (snd (enrichResult allow_all 1 σ)) = nearby σ ∧
  heap (snd (enrichResult allow_all 1 σ)) = heap σ ∧
  bare (snd (enrichResult allow_all 1 σ)) = bare σ ∧
  pageMetadataCache (snd (enrichResult allow_all 1 σ)) = pageMetadataCache σ.
Proof.
  apply (partial_thing_without_metadata (C := web) allow_all 1 partial_result 1
           partial (start ∅));
    try (vm_compute; reflexivity).
  vm_compute. discriminate.
Defined.

Lemma markerFound_without_indexing_witness :
  unchanged (start net_launch)
    (snd (checkIsFetchableURL (marker_value marker_text) (normalizeShouldFetchFn None)
            (start net_launch))) ∧
  forwards_and_enriches (QMarkerFound marker_text) (normalizeShouldFetchFn None)
    (snd (checkIsFetchableURL (marker_value marker_text) (normalizeShouldFetchFn None)
            (start net_launch)))
    (markerFound marker_text None (start net_launch)).
Proof.
  apply (markerFound_without_indexing (C := web) marker_text None (start net_launch)).
  vm_compute. reflexivity.
Defined.


Lemma merged_result_is_settled_witness :
  let σ := start net_launch in
  default ∅ (heap (snd (enrichResult allow_all 1 σ)) !! 2%positive) !! "name"
    = default ∅ (heap (resolved net_launch) !! 2%positive) !! "name" ∧
  enrichResult no_origin 1 (snd (enrichResult allow_all 1 σ))
    = (Returned tt, snd (enrichResult allow_all 1 σ)).
Proof.
  apply (merged_result_is_settled (C := web) allow_all no_origin 1 partial_result 1
           partial (start net_launch) 2 (resolved net_launch));
    try (vm_compute; reflexivity).
  - vm_compute. discriminate.
  - vm_compute. discriminate.
  - vm_compute. discriminate.
  - vm_compute. by eexists.
Defined.
